(** * malva-II widgets: a shallow embedding and its verified properties

    The repository is a set of independent React/Framer widgets.  Part I
    embeds the logic each widget carries, one module per widget:

    - [Browser]        the page's timer tables ([setTimeout],
                       [setInterval], [requestAnimationFrame]);
    - [LogoPreloader]  the preloader's phase timers and render;
    - [Gallery]        the infinite draggable gallery: pinned zoom, the
                       animation-frame tick, pointer handlers, tile lookup;
    - [Binary64]       the pinned-zoom helper at IEEE binary64, the number
                       type JavaScript really computes with;
    - [VideoPlayer]    the minimal video player: media events, play toggle,
                       time formatting;
    - [AmbiLight]      the ambient-glow player: YouTube API loading, glow
                       synchronisation, glow opacity;
    - [Clock]          the analog clock's one-second interval and its
                       face.

    Part II states and proves the properties: first those the
    specification claims (C1 to C10), then further ones read off the code
    (X1 onwards).

    JavaScript numbers are read as exact reals ([R]) in the gallery, whose
    code uses [Math.pow], [Math.hypot], [Math.atan2], [Math.cos] and
    [Math.sin]; as rationals ([Q]) for times and opacities elsewhere; and as
    integers ([Z]) for grid coordinates.  Rounding is looked at separately
    in [Binary64]. *)

From Stdlib Require Import ZArith QArith Qround Qabs.
From Stdlib Require Import Reals Psatz.
From Stdlib Require Import List String Ascii Bool DecimalString.
From Stdlib Require PrimFloat.
Import ListNotations.

(* ================================================================== *)
(** * Part I: the embedding *)
(* ================================================================== *)

(** ** The page's timers *)

(** [setTimeout], [setInterval] and [requestAnimationFrame] as the
    components see them: a table of pending callbacks, each under a handle.
    A callback is kept as data of a type [A] the component chooses; the
    component says what running it does.  Times are in milliseconds. *)

Module Browser.
Local Open Scope Q_scope.

Inductive TimerKind : Type := Timeout | Interval | Frame.

Section Timers.
Variable A : Type.

Record Timer : Type := mkTimer
  { handle : nat; kind : TimerKind; due : Q; period : Q; callback : A }.

(** [pending] is in scheduling order. *)
Record Timers : Type := mkTimers
  { clock : Q; nextHandle : nat; pending : list Timer }.

(** Handles are positive, so a handle is always truthy. *)
Definition fresh (now : Q) : Timers :=
  {| clock := now; nextHandle := 1; pending := [] |}.

(** A negative delay counts as 0. *)
Definition clampDelay (d : Q) : Q := if Qle_bool 0 d then d else 0.

Definition schedule (k : TimerKind) (cb : A) (delay : Q) (tm : Timers)
  : nat * Timers :=
  let h := nextHandle tm in
  let d := clampDelay delay in
  (h, {| clock := clock tm;
         nextHandle := S h;
         pending := pending tm ++ [mkTimer h k (clock tm + d) d cb] |}).

Definition setTimeout := schedule Timeout.

Definition setInterval := schedule Interval.

(** The next repaint is [untilRepaint] ms away; the browser decides it. *)
Definition requestAnimationFrame (cb : A) (untilRepaint : Q) :=
  schedule Frame cb untilRepaint.

(** Timeouts and intervals share one pool of handles, animation frames have
    their own. *)
Definition sameTable (k : TimerKind) (t : Timer) : bool :=
  match k, kind t with
  | Frame, Frame => true
  | Frame, _ | _, Frame => false
  | _, _ => true
  end.

Definition targets (k : TimerKind) (h : nat) (t : Timer) : bool :=
  Nat.eqb (handle t) h && sameTable k t.

Definition cancel (k : TimerKind) (h : nat) (tm : Timers) : Timers :=
  {| clock := clock tm;
     nextHandle := nextHandle tm;
     pending := filter (fun t => negb (targets k h t)) (pending tm) |}.

Definition clearTimeout := cancel Timeout.

Definition clearInterval := cancel Interval.

Definition cancelAnimationFrame := cancel Frame.

(** Whether handle [h] still has a callback pending. *)
Definition live (h : nat) (k : TimerKind) (tm : Timers) : bool :=
  existsb (targets k h) (pending tm).

(** The callback to run next: the earliest due, the first scheduled among
    equals. *)
Fixpoint earliest (l : list Timer) : option Timer :=
  match l with
  | [] => None
  | t :: r =>
      match earliest r with
      | None => Some t
      | Some u => if Qle_bool (due t) (due u) then Some t else Some u
      end
  end.

Definition rearm (t : Timer) : Timer :=
  mkTimer (handle t) (kind t) (due t + period t) (period t) (callback t).

(** Take the next callback out of the table and move the clock to its due
    time; an interval goes back in, one period later. *)
Definition fire (tm : Timers) : option (Timer * Timers) :=
  match earliest (pending tm) with
  | None => None
  | Some t =>
      let rest :=
        filter (fun u => negb (targets (kind t) (handle t) u)) (pending tm) in
      Some (t, {| clock := due t;
                  nextHandle := nextHandle tm;
                  pending := match kind t with
                             | Interval => rest ++ [rearm t]
                             | _ => rest
                             end |})
  end.

End Timers.

Arguments mkTimer {A}.
Arguments handle {A}.
Arguments kind {A}.
Arguments due {A}.
Arguments period {A}.
Arguments callback {A}.
Arguments mkTimers {A}.
Arguments clock {A}.
Arguments nextHandle {A}.
Arguments pending {A}.
Arguments fresh {A}.
Arguments schedule {A}.
Arguments setTimeout {A}.
Arguments setInterval {A}.
Arguments requestAnimationFrame {A}.
Arguments sameTable {A}.
Arguments targets {A}.
Arguments cancel {A}.
Arguments clearTimeout {A}.
Arguments clearInterval {A}.
Arguments cancelAnimationFrame {A}.
Arguments live {A}.
Arguments earliest {A}.
Arguments rearm {A}.
Arguments fire {A}.

(** A table as the page can have it: handles are positive and every
    pending handle was handed out by this table. *)
Definition wellFormed {A : Type} (tm : Timers A) : Prop :=
  (0 < nextHandle tm)%nat
  /\ Forall (fun t => (handle t < nextHandle tm)%nat) (pending tm).

(** The browser running the next [n] due callbacks: the callbacks run, in
    order, and the table left.  It stops early when nothing is pending. *)
Fixpoint fireMany {A : Type} (n : nat) (tm : Timers A)
  : list A * Timers A :=
  match n with
  | O => ([], tm)
  | S k =>
      match fire tm with
      | None => ([], tm)
      | Some (t, tm) =>
          let '(ran, tm) := fireMany k tm in (callback t :: ran, tm)
      end
  end.

End Browser.

(** ** Logo preloader (LogoPreloader) *)

Module LogoPreloader.
Import Browser.
Local Open Scope Q_scope.

(** [useState("init") // init, loading, logoOut, done] *)
Inductive Phase : Type := init | loading | logoOut | done.

Definition Phase_eqb (a b : Phase) : bool :=
  match a, b with
  | init, init | loading, loading | logoOut, logoOut | done, done => true
  | _, _ => false
  end.

(** One mounted instance: its phase, and the handles [t0], [t1], [t2] the
    running effect holds for its cleanup. *)
Record Instance : Type := mkInstance
  { phase : Phase; timers : list nat }.

Definition mounted : Instance := {| phase := init; timers := [] |}.

(** The effect on [[duration, isStatic]].  A timeout's callback is the
    phase it sets. *)
Definition timersEffect (isStatic : bool) (duration : Q)
    (i : Instance) (tm : Timers Phase) : Instance * Timers Phase :=
  if isStatic then (i, tm)
  else
    let '(t0, tm) := setTimeout loading 50 tm in
    let '(t1, tm) := setTimeout logoOut (duration * 1000 + 50) tm in
    let '(t2, tm) := setTimeout done (duration * 1000 + 750) tm in
    ({| phase := phase i; timers := [t0; t1; t2] |}, tm).

(** The cleanup the effect returns. *)
Definition timersCleanup (i : Instance) (tm : Timers Phase)
  : Instance * Timers Phase :=
  ({| phase := phase i; timers := [] |},
   fold_left (fun tm h => clearTimeout h tm) (timers i) tm).

Definition setPhase (p : Phase) (i : Instance) : Instance :=
  {| phase := p; timers := timers i |}.

(** Let the pending timeouts fire, at most [fuel] of them, and record at
    which time the phase became what. *)
Fixpoint runTimers (fuel : nat) (i : Instance) (tm : Timers Phase)
  : list (Q * Phase) * Instance * Timers Phase :=
  match fuel with
  | O => ([], i, tm)
  | S fuel' =>
      match fire tm with
      | None => ([], i, tm)
      | Some (t, tm') =>
          let i' := setPhase (callback t) i in
          let '(tr, i'', tm'') := runTimers fuel' i' tm' in
          ((clock tm', phase i') :: tr, i'', tm'')
      end
  end.

(** What the render function derives from the phase. *)
Record View : Type := mkView
  { logoTranslateY : Z; logoOpacity : Z; bgOpacity : Z }.

(** [None] is the [null] returned for the phase [done]. *)
Definition render (p : Phase) : option View :=
  if Phase_eqb p done then None
  else
    let '(ty, op) :=
      match p with
      | init => (80, 0)
      | loading => (0, 1)
      | logoOut => (-80, 0)
      | done => (0, 1)
      end%Z in
    Some {| logoTranslateY := ty; logoOpacity := op;
            bgOpacity := if Phase_eqb p logoOut then 0 else 1 |}%Z.

(** The place of a phase in the comment's order. *)
Definition rank (p : Phase) : nat :=
  match p with init => 0 | loading => 1 | logoOut => 2 | done => 3 end.

(** [ps], entered in this order starting from [p], never steps to a phase
    of lower rank. *)
Fixpoint neverBackward (p : Phase) (ps : list Phase) : Prop :=
  match ps with
  | [] => True
  | q :: r => (rank p <= rank q)%nat /\ neverBackward q r
  end.

(** What React does when [duration] or [isStatic] changes: the cleanup of
    the previous run, then the effect again. *)
Definition timersRerun (isStatic : bool) (duration : Q)
    (i : Instance) (tm : Timers Phase) : Instance * Timers Phase :=
  let '(i, tm) := timersCleanup i tm in
  timersEffect isStatic duration i tm.

End LogoPreloader.

(** ** Infinite gallery (PhantomInfiniteGallery) *)

Module Gallery.
Import Browser.
Local Open Scope R_scope.

(** The [{ x: number; y: number }] object literal. *)
Record Point : Type := mkPoint { x : R; y : R }.

Definition origin : Point := {| x := 0; y := 0 |}.

(** [computePinnedOffset(prevSize, nextSize, pivot, prevOffset)]. *)
Definition computePinnedOffset
    (prevSize nextSize : R) (pivot prevOffset : Point) : Point :=
  let worldX := (x pivot - x prevOffset) / prevSize in
  let worldY := (y pivot - y prevOffset) / prevSize in
  {| x := x pivot - worldX * nextSize;
     y := y pivot - worldY * nextSize |}.

(** *** The [Math] functions the component calls *)

(** [Math.hypot(a, b)] *)
Definition Math_hypot (a b : R) : R := sqrt (a * a + b * b).

(** [Math.pow] on a positive base, the only case the friction prop allows
    (its control ranges over 0.85 .. 0.99). *)
Definition Math_pow (b e : R) : R := Rpower b e.

(** [Math.atan2(y, x)], the angle of the vector [(x, y)] in (-PI, PI];
    [Math.atan2(0, 0)] is [0]. *)
Definition Math_atan2 (y x : R) : R :=
  match total_order_T x 0 with
  | inleft (left _) =>
      if Rle_dec 0 y then atan (y / x) + PI else atan (y / x) - PI
  | inleft (right _) =>
      match total_order_T y 0 with
      | inleft (left _) => - (PI / 2)
      | inleft (right _) => 0
      | inright _ => PI / 2
      end
  | inright _ => atan (y / x)
  end.

(** [Math.max(min, Math.min(max, v))] *)
Definition clamp (v min max : R) : R := Rmax min (Rmin max v).

(** *** Props, React state and refs *)

Record Props : Type := mkProps
  { cellSize : R;
    zoomValue : R;
    parallaxEnabled : bool;
    parallaxStrength : R;
    parallaxEase : R;
    parallaxWhileDragging : bool;
    inertiaEnabled : bool;
    throwFriction : R;
    throwVelocityScale : R;
    throwMinSpeed : R;
    throwMaxSpeed : R }.

(** The defaults of the destructured props; [zoomValue] has its control's
    default. *)
Definition defaultProps : Props :=
  {| cellSize := 200;
     zoomValue := 0.7;
     parallaxEnabled := true;
     parallaxStrength := 0.1;
     parallaxEase := 0.12;
     parallaxWhileDragging := false;
     inertiaEnabled := true;
     throwFriction := 0.92;
     throwVelocityScale := 1;
     throwMinSpeed := 80;
     throwMaxSpeed := 2500 |}.

(** The [useState] cells. *)
Record Hooks : Type := mkHooks
  { offset : Point;
    targetOffset : Point;
    isDragging : bool;
    currentCellSize : R;
    mouseOffset : Point;
    targetMouseOffset : Point;
    targetCellSize : R;
    inertia : Point }.

Record LastMove : Type := mkLastMove { lx : R; ly : R; lt : R }.

(** The [useRef] cells.  A timer handle is a positive integer; [None] is
    [null]. *)
Record Refs : Type := mkRefs
  { inertiaRef : Point;
    velocityRef : Point;
    lastMoveRef : LastMove;
    inertiaActiveRef : bool;
    pointerIdRef : option Z;
    isPressingRef : bool;
    draggingRef : bool;
    offsetRef : Point;
    targetOffsetRef : Point;
    mouseOffsetRef : Point;
    targetMouseOffsetRef : Point;
    pressPosRef : Point;
    startOffsetRef : Point;
    pressTimerRef : option nat;
    lastTimeRef : R }.

(** What a scheduled callback of this component does when it fires.  The
    press-zoom closure captures [currentCellSize] as it was at the render
    that created [handlePointerDown]. *)
Inductive Callback : Type :=
  | TickCb
  | PressZoomCb (capturedCellSize : R).

(** One mounted instance: state, refs, and the [raf] variable local to the
    animation effect. *)
Record Instance : Type := mkInstance
  { hooks : Hooks; refs : Refs; raf : nat }.

(** What [getBoundingClientRect()] returns for the container. *)
Record Rect : Type := mkRect { left : R; top : R; width : R; height : R }.

Record PointerEvent : Type := mkPointerEvent
  { pointerId : Z; clientX : R; clientY : R }.

(** State of a freshly mounted instance at time [now]. *)
Definition mounted (pr : Props) (now : R) : Instance :=
  {| hooks :=
       {| offset := origin; targetOffset := origin; isDragging := false;
          currentCellSize := cellSize pr; mouseOffset := origin;
          targetMouseOffset := origin; targetCellSize := cellSize pr;
          inertia := origin |};
     refs :=
       {| inertiaRef := origin; velocityRef := origin;
          lastMoveRef := {| lx := 0; ly := 0; lt := 0 |};
          inertiaActiveRef := false; pointerIdRef := None;
          isPressingRef := false; draggingRef := false;
          offsetRef := origin; targetOffsetRef := origin;
          mouseOffsetRef := origin; targetMouseOffsetRef := origin;
          pressPosRef := origin; startOffsetRef := origin;
          pressTimerRef := None; lastTimeRef := now |};
     raf := 0 |}.

(** The mirror effects [useEffect(() => { ref.current = state }, [state])],
    run after every render. *)
Definition syncRefs (g : Instance) : Instance :=
  let h := hooks g in
  let r := refs g in
  {| hooks := h;
     refs :=
       {| inertiaRef := inertia h; velocityRef := velocityRef r;
          lastMoveRef := lastMoveRef r;
          inertiaActiveRef := inertiaActiveRef r;
          pointerIdRef := pointerIdRef r;
          isPressingRef := isPressingRef r;
          draggingRef := isDragging h;
          offsetRef := offset h; targetOffsetRef := targetOffset h;
          mouseOffsetRef := mouseOffset h;
          targetMouseOffsetRef := targetMouseOffset h;
          pressPosRef := pressPosRef r; startOffsetRef := startOffsetRef r;
          pressTimerRef := pressTimerRef r; lastTimeRef := lastTimeRef r |};
     raf := raf g |}.

(** [rect ? { x: rect.width / 2, y: rect.height / 2 } : { x: 0, y: 0 }] *)
Definition pivotOf (rect : option Rect) : Point :=
  match rect with
  | Some r => {| x := width r / 2; y := height r / 2 |}
  | None => origin
  end.

(** [offsetRef.current + inertiaRef.current], the offset on screen. *)
Definition visibleOffset (r : Refs) : Point :=
  {| x := x (offsetRef r) + x (inertiaRef r);
     y := y (offsetRef r) + y (inertiaRef r) |}.

(** *** State setters, named as in the source *)

Definition setOffset (v : Point) (h : Hooks) : Hooks :=
  {| offset := v; targetOffset := targetOffset h; isDragging := isDragging h;
     currentCellSize := currentCellSize h; mouseOffset := mouseOffset h;
     targetMouseOffset := targetMouseOffset h;
     targetCellSize := targetCellSize h; inertia := inertia h |}.

Definition setTargetOffset (v : Point) (h : Hooks) : Hooks :=
  {| offset := offset h; targetOffset := v; isDragging := isDragging h;
     currentCellSize := currentCellSize h; mouseOffset := mouseOffset h;
     targetMouseOffset := targetMouseOffset h;
     targetCellSize := targetCellSize h; inertia := inertia h |}.

Definition setIsDragging (v : bool) (h : Hooks) : Hooks :=
  {| offset := offset h; targetOffset := targetOffset h; isDragging := v;
     currentCellSize := currentCellSize h; mouseOffset := mouseOffset h;
     targetMouseOffset := targetMouseOffset h;
     targetCellSize := targetCellSize h; inertia := inertia h |}.

Definition setCurrentCellSize (v : R) (h : Hooks) : Hooks :=
  {| offset := offset h; targetOffset := targetOffset h;
     isDragging := isDragging h;
     currentCellSize := v; mouseOffset := mouseOffset h;
     targetMouseOffset := targetMouseOffset h;
     targetCellSize := targetCellSize h; inertia := inertia h |}.

Definition setMouseOffset (v : Point) (h : Hooks) : Hooks :=
  {| offset := offset h; targetOffset := targetOffset h;
     isDragging := isDragging h;
     currentCellSize := currentCellSize h; mouseOffset := v;
     targetMouseOffset := targetMouseOffset h;
     targetCellSize := targetCellSize h; inertia := inertia h |}.

Definition setTargetMouseOffset (v : Point) (h : Hooks) : Hooks :=
  {| offset := offset h; targetOffset := targetOffset h;
     isDragging := isDragging h;
     currentCellSize := currentCellSize h; mouseOffset := mouseOffset h;
     targetMouseOffset := v;
     targetCellSize := targetCellSize h; inertia := inertia h |}.

Definition setTargetCellSize (v : R) (h : Hooks) : Hooks :=
  {| offset := offset h; targetOffset := targetOffset h;
     isDragging := isDragging h;
     currentCellSize := currentCellSize h; mouseOffset := mouseOffset h;
     targetMouseOffset := targetMouseOffset h;
     targetCellSize := v; inertia := inertia h |}.

Definition setInertia (v : Point) (h : Hooks) : Hooks :=
  {| offset := offset h; targetOffset := targetOffset h;
     isDragging := isDragging h;
     currentCellSize := currentCellSize h; mouseOffset := mouseOffset h;
     targetMouseOffset := targetMouseOffset h;
     targetCellSize := targetCellSize h; inertia := v |}.

(** Assignments to [ref.current]. *)
Inductive RefWrite : Type :=
  | velocityRef_is (v : Point)
  | lastMoveRef_is (m : LastMove)
  | inertiaActiveRef_is (b : bool)
  | pointerIdRef_is (p : option Z)
  | isPressingRef_is (b : bool)
  | draggingRef_is (b : bool)
  | pressPosRef_is (p : Point)
  | startOffsetRef_is (p : Point)
  | pressTimerRef_is (t : option nat)
  | lastTimeRef_is (t : R).

Definition assign (w : RefWrite) (r : Refs) : Refs :=
  {| inertiaRef := inertiaRef r;
     velocityRef :=
       match w with velocityRef_is v => v | _ => velocityRef r end;
     lastMoveRef :=
       match w with lastMoveRef_is m => m | _ => lastMoveRef r end;
     inertiaActiveRef :=
       match w with inertiaActiveRef_is b => b | _ => inertiaActiveRef r end;
     pointerIdRef :=
       match w with pointerIdRef_is p => p | _ => pointerIdRef r end;
     isPressingRef :=
       match w with isPressingRef_is b => b | _ => isPressingRef r end;
     draggingRef :=
       match w with draggingRef_is b => b | _ => draggingRef r end;
     offsetRef := offsetRef r;
     targetOffsetRef := targetOffsetRef r;
     mouseOffsetRef := mouseOffsetRef r;
     targetMouseOffsetRef := targetMouseOffsetRef r;
     pressPosRef :=
       match w with pressPosRef_is p => p | _ => pressPosRef r end;
     startOffsetRef :=
       match w with startOffsetRef_is p => p | _ => startOffsetRef r end;
     pressTimerRef :=
       match w with pressTimerRef_is t => t | _ => pressTimerRef r end;
     lastTimeRef :=
       match w with lastTimeRef_is t => t | _ => lastTimeRef r end |}.

Definition hook (f : Hooks -> Hooks) (g : Instance) : Instance :=
  {| hooks := f (hooks g); refs := refs g; raf := raf g |}.

Definition ref (w : RefWrite) (g : Instance) : Instance :=
  {| hooks := hooks g; refs := assign w (refs g); raf := raf g |}.

(** A fresh instance given velocity [v] and left coasting, as after a
    throw. *)
Definition thrown (pr : Props) (now : R) (v : Point) : Instance :=
  ref (inertiaActiveRef_is true) (ref (velocityRef_is v) (mounted pr now)).

(** The comparisons [<], [<=] and [!==] on numbers, as booleans. *)
Definition Rlt_b (a b : R) : bool := if Rlt_dec a b then true else false.
Definition Rle_b (a b : R) : bool := if Rle_dec a b then true else false.
Definition Rneq_b (a b : R) : bool := if Req_dec_T a b then false else true.

Definition DRAG_THRESHOLD : R := 4.
Definition PRESS_ZOOM_DELAY : Q := 120.

(** *** [commitInertiaToBase] *)
Definition commitInertiaToBase (g : Instance) : Instance :=
  let currentOffset := offsetRef (refs g) in
  let currentInertia := inertiaRef (refs g) in
  let committed :=
    {| x := x currentOffset + x currentInertia;
       y := y currentOffset + y currentInertia |} in
  let g := hook (setOffset committed) g in
  let g := hook (setTargetOffset committed) g in
  let g := hook (setInertia origin) g in
  ref (inertiaActiveRef_is false) g.

(** *** The animation-frame [tick], block by block *)

(** [const dt = Math.min(0.05, (now - lastTimeRef.current) / 1000)] *)
Definition frameDt (now : R) (g : Instance) : R :=
  Rmin 0.05 ((now - lastTimeRef (refs g)) / 1000).

(** "Lerp size". *)
Definition easeSize (g : Instance) : Instance :=
  let target := targetCellSize (hooks g) in
  hook (fun h =>
          let prev := currentCellSize h in
          let next := prev + (target - prev) * 0.15 in
          setCurrentCellSize
            (if Rlt_b (Rabs (next - target)) 0.05 then target else next) h) g.

(** "Lerp base offset only when NOT dragging". *)
Definition easeOffset (g : Instance) : Instance :=
  if negb (draggingRef (refs g)) then
    hook (fun h =>
            let prev := offset h in
            let tx := x (targetOffsetRef (refs g)) in
            let ty := y (targetOffsetRef (refs g)) in
            let nx := x prev + (tx - x prev) * 0.15 in
            let ny := y prev + (ty - y prev) * 0.15 in
            setOffset
              {| x := if Rlt_b (Rabs (nx - tx)) 0.1 then tx else nx;
                 y := if Rlt_b (Rabs (ny - ty)) 0.1 then ty else ny |} h) g
  else g.

(** [Math.hypot(v.x, v.y)], the speed in px/s. *)
Definition speed (v : Point) : R := Math_hypot (x v) (y v).

(** The velocity after friction: both components times
    [Math.pow(throwFriction, dt * 60)]. *)
Definition decayed (pr : Props) (dt : R) (v : Point) : Point :=
  let f := Math_pow (throwFriction pr) (dt * 60) in
  {| x := x v * f; y := y v * f |}.

(** "Instead of stopping completely, give it a very small infinite
    movement". *)
Definition keepCreeping (v : Point) : Point :=
  if Rlt_b (speed v) 1 then
    let direction := Math_atan2 (y v) (x v) in
    {| x := cos direction * 0.0001; y := sin direction * 0.0001 |}
  else v.

(** "Inertia update (independent of base offset)". *)
Definition inertiaUpdate (pr : Props) (dt : R) (g : Instance) : Instance :=
  if inertiaEnabled pr && inertiaActiveRef (refs g) then
    let v := keepCreeping (decayed pr dt (velocityRef (refs g))) in
    let g := ref (velocityRef_is v) g in
    hook (fun h =>
            let prev := inertia h in
            setInertia {| x := x prev + x v * dt;
                          y := y prev + y v * dt |} h) g
  else g.

(** "Eased parallax (independent of drag/zoom)". *)
Definition easeParallax (pr : Props) (g : Instance) : Instance :=
  let ease := parallaxEase pr in
  if parallaxEnabled pr
     && (parallaxWhileDragging pr || negb (draggingRef (refs g))) then
    hook (fun h =>
            let prev := mouseOffset h in
            let tx := x (targetMouseOffsetRef (refs g)) in
            let ty := y (targetMouseOffsetRef (refs g)) in
            let nx := x prev + (tx - x prev) * ease in
            let ny := y prev + (ty - y prev) * ease in
            setMouseOffset
              {| x := if Rlt_b (Rabs (nx - tx)) 0.1 then tx else nx;
                 y := if Rlt_b (Rabs (ny - ty)) 0.1 then ty else ny |} h) g
  else
    hook (fun h =>
            let prev := mouseOffset h in
            let nx := x prev + (0 - x prev) * ease in
            let ny := y prev + (0 - y prev) * ease in
            setMouseOffset
              {| x := if Rlt_b (Rabs nx) 0.1 then 0 else nx;
                 y := if Rlt_b (Rabs ny) 0.1 then 0 else ny |} h) g.

(** One run of [tick] at time [now]; it ends by requesting the next frame,
    [untilRepaint] ms away. *)
Definition tick (pr : Props) (now : R) (untilRepaint : Q)
    (g : Instance) (tm : Timers Callback) : Instance * Timers Callback :=
  let dt := frameDt now g in
  let g := ref (lastTimeRef_is now) g in
  let g := easeSize g in
  let g := easeOffset g in
  let g := inertiaUpdate pr dt g in
  let g := easeParallax pr g in
  let '(h, tm) := requestAnimationFrame TickCb untilRepaint tm in
  ({| hooks := hooks g; refs := refs g; raf := h |}, tm).

(** The animation effect: its body and its cleanup. *)
Definition rafEffect (untilRepaint : Q)
    (g : Instance) (tm : Timers Callback) : Instance * Timers Callback :=
  let '(h, tm) := requestAnimationFrame TickCb untilRepaint tm in
  ({| hooks := hooks g; refs := refs g; raf := h |}, tm).

Definition rafCleanup (g : Instance) (tm : Timers Callback)
  : Timers Callback :=
  cancelAnimationFrame (raf g) tm.

(** *** The [cellSize] effect: "keep the view stable". *)
Definition cellSizeEffect (pr : Props) (rect : option Rect) (g : Instance)
  : Instance :=
  let pivot := pivotOf rect in
  let newTargetOffset :=
    computePinnedOffset (currentCellSize (hooks g)) (cellSize pr) pivot
      (visibleOffset (refs g)) in
  let g := hook (setTargetCellSize (cellSize pr)) g in
  hook (setTargetOffset newTargetOffset) g.

(** *** Pointer handlers *)

(** The body of the press-zoom timeout, run when it fires. *)
Definition pressZoom (pr : Props) (capturedCellSize : R)
    (rect : option Rect) (g : Instance) : Instance :=
  if negb (draggingRef (refs g)) && isPressingRef (refs g) then
    let pivot := pivotOf rect in
    let newSize := cellSize pr * zoomValue pr in
    let pinned :=
      computePinnedOffset capturedCellSize newSize pivot
        (visibleOffset (refs g)) in
    let g := hook (setTargetCellSize newSize) g in
    hook (setTargetOffset pinned) g
  else g.

Definition handlePointerDown (pr : Props) (e : PointerEvent) (now : R)
    (g0 : Instance) (tm : Timers Callback) : Instance * Timers Callback :=
  let g :=
    if inertiaActiveRef (refs g0)
       || Rneq_b (x (inertiaRef (refs g0))) 0
       || Rneq_b (y (inertiaRef (refs g0))) 0
    then commitInertiaToBase g0 else g0 in
  let g := ref (pointerIdRef_is (Some (pointerId e))) g in
  let g := ref (isPressingRef_is true) g in
  let g := hook (setIsDragging false) g in
  let g :=
    ref (lastMoveRef_is {| lx := clientX e; ly := clientY e; lt := now |}) g in
  let g := ref (velocityRef_is origin) g in
  let g := ref (pressPosRef_is {| x := clientX e; y := clientY e |}) g in
  let g := ref (startOffsetRef_is (offsetRef (refs g))) g in
  let tm :=
    match pressTimerRef (refs g) with
    | Some (S _ as h) => clearTimeout h tm
    | _ => tm
    end in
  let '(h, tm) :=
    setTimeout (PressZoomCb (currentCellSize (hooks g0)))
               PRESS_ZOOM_DELAY tm in
  (ref (pressTimerRef_is (Some h)) g, tm).

Definition handlePointerMove (pr : Props) (e : PointerEvent) (now : R)
    (rect : option Rect) (g0 : Instance) : Instance :=
  let g :=
    if isPressingRef (refs g0) then
      let last := lastMoveRef (refs g0) in
      let dt := Rmax 0.001 ((now - lt last) / 1000) in
      let dx := clientX e - lx last in
      let dy := clientY e - ly last in
      let vx := clamp (dx / dt * throwVelocityScale pr)
                      (- throwMaxSpeed pr) (throwMaxSpeed pr) in
      let vy := clamp (dy / dt * throwVelocityScale pr)
                      (- throwMaxSpeed pr) (throwMaxSpeed pr) in
      let v := velocityRef (refs g0) in
      let g := ref (velocityRef_is {| x := vx * 0.6 + x v * 0.4;
                                      y := vy * 0.6 + y v * 0.4 |}) g0 in
      ref (lastMoveRef_is {| lx := clientX e; ly := clientY e; lt := now |}) g
    else g0 in
  let suppressParallax := isPressingRef (refs g) || isDragging (hooks g0) in
  let g :=
    match rect with
    | Some rc =>
        if parallaxEnabled pr
           && (parallaxWhileDragging pr || negb (draggingRef (refs g)))
           && negb suppressParallax
        then
          let mouseX := clientX e - left rc in
          let mouseY := clientY e - top rc in
          let centerX := width rc / 2 in
          let centerY := height rc / 2 in
          let reverseX := (centerX - mouseX) * parallaxStrength pr in
          let reverseY := (centerY - mouseY) * parallaxStrength pr in
          hook (setTargetMouseOffset {| x := reverseX; y := reverseY |}) g
        else g
    | None => g
    end in
  if negb (isPressingRef (refs g)) then g
  else
    let dx := clientX e - x (pressPosRef (refs g)) in
    let dy := clientY e - y (pressPosRef (refs g)) in
    let g :=
      if negb (isDragging (hooks g0))
         && Rlt_b DRAG_THRESHOLD (Math_hypot dx dy)
      then
        let g := hook (setIsDragging true) g in
        let g := ref (draggingRef_is true) g in
        ref (startOffsetRef_is (offsetRef (refs g))) g
      else g in
    if draggingRef (refs g) then
      let nx := x (startOffsetRef (refs g)) + dx in
      let ny := y (startOffsetRef (refs g)) + dy in
      let g := hook (setOffset {| x := nx; y := ny |}) g in
      hook (setTargetOffset {| x := nx; y := ny |}) g
    else g.

Definition handlePointerUp (pr : Props) (rect : option Rect)
    (g0 : Instance) (tm : Timers Callback) : Instance * Timers Callback :=
  let g := ref (isPressingRef_is false) g0 in
  let '(g, tm) :=
    match pressTimerRef (refs g) with
    | Some (S _ as h) => (ref (pressTimerRef_is None) g, clearTimeout h tm)
    | _ => (g, tm)
    end in
  let speed := Math_hypot (x (velocityRef (refs g))) (y (velocityRef (refs g))) in
  let g :=
    if inertiaEnabled pr && Rle_b (throwMinSpeed pr) speed then
      ref (inertiaActiveRef_is true) g
    else
      let g := ref (inertiaActiveRef_is false) g in
      hook (setInertia origin) g in
  let g := hook (setIsDragging false) g in
  let g := ref (draggingRef_is false) g in
  let pivot := pivotOf rect in
  let pinnedBack :=
    computePinnedOffset (currentCellSize (hooks g0)) (cellSize pr) pivot
      (visibleOffset (refs g)) in
  let g := hook (setTargetMouseOffset origin) g in
  let g := hook (setTargetCellSize (cellSize pr)) g in
  (hook (setTargetOffset pinnedBack) g, tm).

Definition handlePointerLeave (g : Instance) : Instance :=
  hook (setTargetMouseOffset origin) g.

(** Running a due callback of this component. *)
Definition runCallback (pr : Props) (now : R) (untilRepaint : Q)
    (rect : option Rect) (cb : Callback)
    (g : Instance) (tm : Timers Callback) : Instance * Timers Callback :=
  match cb with
  | TickCb => tick pr now untilRepaint g tm
  | PressZoomCb captured => (pressZoom pr captured rect g, tm)
  end.

(** Unmounting runs the cleanups the effects returned.  Two effects return
    one: the [ResizeObserver] effect (it disconnects the observer, which
    holds no timer) and the animation effect. *)
Definition unmount (g : Instance) (tm : Timers Callback) : Timers Callback :=
  rafCleanup g tm.

(** *** Tiles *)

Record Image : Type := mkImage { src : string; alt : string }.

Record GalleryItem : Type := mkGalleryItem
  { title : string; image : option Image; year : Z; href : string }.

(** [Math.abs((x + y * 3) % items.length)]; [None] is NaN, the value of
    [% 0]. *)
Definition itemIndex (x y : Z) (length : Z) : option Z :=
  if (length =? 0)%Z then None
  else Some (Z.abs (Z.rem (x + y * 3) length)).

(** [items[itemIndex]]; [None] is [undefined]. *)
Definition itemAt (items : list GalleryItem) (i : option Z)
  : option GalleryItem :=
  match i with
  | Some z => if (z <? 0)%Z then None else nth_error items (Z.to_nat z)
  | None => None
  end.

(** [s || fallback] on an optional string: the empty string is falsy. *)
Definition orString (s : option string) (fallback : string) : string :=
  match s with
  | Some v => if String.eqb v "" then fallback else v
  | None => fallback
  end.

(** [n || fallback] on an optional number: zero is falsy. *)
Definition orNumber (n : option Z) (fallback : Z) : Z :=
  match n with
  | Some v => if (v =? 0)%Z then fallback else v
  | None => fallback
  end.

Definition placeholderImage : string :=
  "https://framerusercontent.com/images/GfGkADagM4KEibNcIiRUWlfrR0.jpg".

(** What a tile shows of its item.  [tileHref] is rendered by the variant
    of the component that wraps each tile in a link. *)
Record Tile : Type := mkTile
  { key : Z * Z;
    tileImage : string;
    tileTitle : string;
    tileYear : Z;
    tileHref : string }.

(** One iteration of the grid loop.  [fallbackImage] is [placeholderImage]
    in the full component and the empty string in the link variant. *)
Definition tile (fallbackImage : string) (items : list GalleryItem)
    (x y : Z) : Tile :=
  let item := itemAt items (itemIndex x y (Z.of_nat (List.length items))) in
  {| key := (x, y);
     tileImage :=
       orString (option_map src (match item with
                                 | Some it => image it
                                 | None => None
                                 end)) fallbackImage;
     tileTitle := orString (option_map title item) "Project";
     tileYear := orNumber (option_map year item) 2024;
     tileHref := orString (option_map href item) "#" |}.

Definition gridSize : nat := 20.

(** The two nested [for] loops, rows outermost. *)
Definition gridCells (fallbackImage : string) (items : list GalleryItem)
    (startX startY : Z) : list Tile :=
  flat_map
    (fun j => map (fun i => tile fallbackImage items
                                 (startX + Z.of_nat i) (startY + Z.of_nat j))
                  (seq 0 gridSize))
    (seq 0 gridSize).

(** *** The frame loop *)

(** The browser running the instance's due callbacks one after the other,
    the [k]-th at time [nows[k]].  The state a callback sets is rendered
    before the next one runs, so the mirror effects run in between. *)
Fixpoint runFrames (pr : Props) (untilRepaint : Q) (rect : option Rect)
    (nows : list R) (g : Instance) (tm : Timers Callback)
  : Instance * Timers Callback :=
  match nows with
  | [] => (g, tm)
  | now :: later =>
      match fire tm with
      | None => (g, tm)
      | Some (t, tm) =>
          let '(g, tm) :=
            runCallback pr now untilRepaint rect (callback t) g tm in
          runFrames pr untilRepaint rect later (syncRefs g) tm
      end
  end.

(** The cells the tick reads mirror the rendered state, as they do once
    the mirror effects have run. *)
Definition rendered (g : Instance) : Prop :=
  targetOffsetRef (refs g) = targetOffset (hooks g)
  /\ targetMouseOffsetRef (refs g) = targetMouseOffset (hooks g)
  /\ draggingRef (refs g) = isDragging (hooks g).

(** Where the tick eases the parallax to: the pointer's target where the
    parallax applies, zero where it does not. *)
Definition parallaxTarget (pr : Props) (g : Instance) : Point :=
  if parallaxEnabled pr
     && (parallaxWhileDragging pr || negb (draggingRef (refs g)))
  then targetMouseOffsetRef (refs g) else origin.

(** The easing step the tick applies to the cell size and to each axis of
    the offset and of the parallax: move [prev] towards [target] by the
    fraction [rate], and snap onto it once closer than [snap]. *)
Definition easeTowards (rate snap prev target : R) : R :=
  let next := prev + (target - prev) * rate in
  if Rlt_b (Rabs (next - target)) snap then target else next.

(** *** Arc transform *)

Definition toRadians (deg : R) : R := deg * PI / 180.

Inductive ArcAxis : Type := horizontal | vertical.

Record ArcOpts : Type := mkArcOpts
  { cellCenterX : R;
    cellCenterY : R;
    viewportW : R;
    viewportH : R;
    arcAxis : ArcAxis;
    arcMaxAngleDeg : R;
    arcAmount : R }.

Record ArcTransform : Type := mkArcTransform
  { z : R; yawDeg : R; pitchDeg : R; edgeFactor : R }.

Definition calcArcTransform (opts : ArcOpts) : ArcTransform :=
  let maxAngle :=
    toRadians (arcMaxAngleDeg opts) * Rmax 0 (Rmin 1 (arcAmount opts)) in
  if Req_dec_T maxAngle 0
  then {| z := 0; yawDeg := 0; pitchDeg := 0; edgeFactor := 0 |}
  else
    match arcAxis opts with
    | horizontal =>
        let dx :=
          (cellCenterX opts - viewportW opts / 2) / (viewportW opts / 2) in
        let angle := dx * maxAngle in
        let radius := viewportW opts / (2 * sin (Rmax 0.001 maxAngle)) in
        let z := - radius * (cos angle - 1) in
        let yawDeg := - (angle * 180) / PI in
        let edgeFactor := Rmin 1 (Rabs dx) in
        {| z := z; yawDeg := yawDeg; pitchDeg := 0;
           edgeFactor := edgeFactor |}
    | vertical =>
        let dy :=
          (cellCenterY opts - viewportH opts / 2) / (viewportH opts / 2) in
        let angle := dy * maxAngle in
        let radius := viewportH opts / (2 * sin (Rmax 0.001 maxAngle)) in
        let z := - radius * (cos angle - 1) in
        let pitchDeg := (angle * 180) / PI in
        let edgeFactor := Rmin 1 (Rabs dy) in
        {| z := z; yawDeg := 0; pitchDeg := pitchDeg;
           edgeFactor := edgeFactor |}
    end.

(** *** Tile geometry *)

(** [Math.floor(-offset / cellWithGap) - 5], the first column or row of
    the grid, for a cell size other than zero. *)
Definition gridStart (offset cellWithGap : R) : Z :=
  (Int_part (- offset / cellWithGap) - 5)%Z.

(** [x * cellWithGap + offset.x + mouseOffset.x + inertia.x], and the same
    for rows. *)
Definition tileLeft (h : Hooks) (col : Z) : R :=
  IZR col * currentCellSize h + x (offset h) + x (mouseOffset h)
  + x (inertia h).

Definition tileTop (h : Hooks) (row : Z) : R :=
  IZR row * currentCellSize h + y (offset h) + y (mouseOffset h)
  + y (inertia h).

(** [viewport.w || 1] *)
Definition orOne (r : R) : R := if Req_dec_T r 0 then 1 else r.

(** The arc transform of the tile in column [col] and row [row]. *)
Definition tileArc (h : Hooks) (viewportWidth viewportHeight : R)
    (axis : ArcAxis) (maxAngleDeg amount : R) (col row : Z)
  : ArcTransform :=
  calcArcTransform
    {| cellCenterX := tileLeft h col + currentCellSize h / 2;
       cellCenterY := tileTop h row + currentCellSize h / 2;
       viewportW := orOne viewportWidth;
       viewportH := orOne viewportHeight;
       arcAxis := axis;
       arcMaxAngleDeg := maxAngleDeg;
       arcAmount := amount |}.

(** [1 - edgeFade * (edgeFactor * edgeFactor)] *)
Definition tileScale (edgeFade : R) (t : ArcTransform) : R :=
  1 - edgeFade * (edgeFactor t * edgeFactor t).

(** [1 - 0.4 * (edgeFactor * arcAmount)] *)
Definition tileOpacity (amount : R) (t : ArcTransform) : R :=
  1 - 0.4 * (edgeFactor t * amount).

(** The table holds the instance's animation frame and nothing else. *)
Definition onlyFramePending (g : Instance) (tm : Timers Callback) : Prop :=
  exists due period,
    pending tm = [mkTimer (raf g) Frame due period TickCb].

(** *** A gesture *)

(** Pointer moves handled one after the other, each rendered before the
    next: the event and the value of [performance.now()] at it. *)
Definition pointerMoves (pr : Props) (rect : option Rect)
    (moves : list (PointerEvent * R)) (g : Instance) : Instance :=
  fold_left
    (fun g m => syncRefs (handlePointerMove pr (fst m) (snd m) rect g))
    moves g.

End Gallery.

(** ** The pinned-zoom helper at binary64 *)

(** A JavaScript number is an IEEE 754 binary64 float, and so is a
    [PrimFloat.float]: this copy of [computePinnedOffset] computes what the
    source computes, bit for bit. *)

Module Binary64.
Import PrimFloat.
Local Open Scope float_scope.

Record Point : Type := mkPoint { x : float; y : float }.

Definition computePinnedOffset
    (prevSize nextSize : float) (pivot prevOffset : Point) : Point :=
  let worldX := (x pivot - x prevOffset) / prevSize in
  let worldY := (y pivot - y prevOffset) / prevSize in
  {| x := x pivot - worldX * nextSize;
     y := y pivot - worldY * nextSize |}.

End Binary64.

(** ** Minimal video player (MinimalVideoPlayer) *)

Module VideoPlayer.
Import Browser.
Local Open Scope Q_scope.

(** The [useState] cells of one instance. *)
Record State : Type := mkState
  { isPlaying : bool;
    currentTime : Q;
    duration : Q;
    showPlayButton : bool;
    isHovered : bool;
    hasPlayedOnce : bool;
    showPosterImage : bool }.

(** Initial values, from the [autoPlay] and [showPoster] props. *)
Definition initial (autoPlay showPoster : bool) : State :=
  {| isPlaying := autoPlay; currentTime := 0; duration := 0;
     showPlayButton := negb autoPlay; isHovered := false;
     hasPlayedOnce := autoPlay; showPosterImage := showPoster |}.

(** What the handlers read from the [<video>] element: [duration] is
    [None] while it is NaN (no metadata yet). *)
Record Video : Type := mkVideo
  { video_currentTime : Q; video_duration : option Q }.

(** How a call to [video.play()] ends. *)
Inductive PlayResult : Type := Resolved | Rejected.

(** Calls made on the [<video>] element. *)
Inductive Command : Type := Play | Pause.

(** What a scheduled timeout of this component does when it fires. *)
Inductive Callback : Type :=
  | HidePoster            (* [() => setShowPosterImage(false)] *)
  | DelayedAutoPlay.      (* [() => video.play().catch(...)]   *)

Definition setShowPosterImage (b : bool) (s : State) : State :=
  {| isPlaying := isPlaying s; currentTime := currentTime s;
     duration := duration s; showPlayButton := showPlayButton s;
     isHovered := isHovered s; hasPlayedOnce := hasPlayedOnce s;
     showPosterImage := b |}.

Definition setIsPlaying (b : bool) (s : State) : State :=
  {| isPlaying := b; currentTime := currentTime s;
     duration := duration s; showPlayButton := showPlayButton s;
     isHovered := isHovered s; hasPlayedOnce := hasPlayedOnce s;
     showPosterImage := showPosterImage s |}.

Definition setShowPlayButton (b : bool) (s : State) : State :=
  {| isPlaying := isPlaying s; currentTime := currentTime s;
     duration := duration s; showPlayButton := b;
     isHovered := isHovered s; hasPlayedOnce := hasPlayedOnce s;
     showPosterImage := showPosterImage s |}.

Definition setHasPlayedOnce (b : bool) (s : State) : State :=
  {| isPlaying := isPlaying s; currentTime := currentTime s;
     duration := duration s; showPlayButton := showPlayButton s;
     isHovered := isHovered s; hasPlayedOnce := b;
     showPosterImage := showPosterImage s |}.

Definition setCurrentTime (t : Q) (s : State) : State :=
  {| isPlaying := isPlaying s; currentTime := t;
     duration := duration s; showPlayButton := showPlayButton s;
     isHovered := isHovered s; hasPlayedOnce := hasPlayedOnce s;
     showPosterImage := showPosterImage s |}.

Definition setDuration (t : Q) (s : State) : State :=
  {| isPlaying := isPlaying s; currentTime := currentTime s;
     duration := t; showPlayButton := showPlayButton s;
     isHovered := isHovered s; hasPlayedOnce := hasPlayedOnce s;
     showPosterImage := showPosterImage s |}.

Definition setIsHovered (b : bool) (s : State) : State :=
  {| isPlaying := isPlaying s; currentTime := currentTime s;
     duration := duration s; showPlayButton := showPlayButton s;
     isHovered := b; hasPlayedOnce := hasPlayedOnce s;
     showPosterImage := showPosterImage s |}.

(** *** Media-event listeners *)

(** [timeupdate] and [loadedmetadata]; [video.duration || 0]. *)
Definition updateTime (video : Video) (s : State) : State :=
  let s := setCurrentTime (video_currentTime video) s in
  setDuration (match video_duration video with
               | Some d => d
               | None => 0
               end) s.

Definition handlePlay (s : State) : State :=
  let s := setIsPlaying true s in
  let s := setShowPlayButton false s in
  setHasPlayedOnce true s.

Definition handlePause (s : State) : State :=
  let s := setIsPlaying false s in
  setShowPlayButton true s.

(** [playing]: hide the poster 50 ms later.  The handle [setTimeout]
    returns is dropped. *)
Definition handleReady (tm : Timers Callback) : Timers Callback :=
  snd (setTimeout HidePoster 50 tm).

Definition handleError (s : State) : State :=
  let s := setShowPosterImage true s in
  setIsPlaying false s.

(** *** Starting playback *)

(** [video.play().catch(() => setShowPosterImage(true))] *)
Definition playOrPoster (result : PlayResult) (s : State) : State :=
  match result with
  | Resolved => s
  | Rejected => setShowPosterImage true s
  end.

(** The autoplay effect.  It returns the state, the timer table, the calls
    made on the element, and the effect-local [timer] variable that the
    cleanup reads. *)
Definition autoPlayEffect
    (hasVideo isStatic autoPlay : bool) (autoPlayDelay : Q)
    (result : PlayResult) (s : State) (tm : Timers Callback)
  : State * Timers Callback * list Command * option nat :=
  if negb hasVideo || isStatic || negb autoPlay then (s, tm, [], None)
  else if negb (Qle_bool autoPlayDelay 0) then
    let '(h, tm) := setTimeout DelayedAutoPlay autoPlayDelay tm in
    (s, tm, [], Some h)
  else (playOrPoster result s, tm, [Play], None).

(** [if (timer) clearTimeout(timer)] *)
Definition autoPlayCleanup (timer : option nat) (tm : Timers Callback)
  : Timers Callback :=
  match timer with
  | Some (S _ as h) => clearTimeout h tm
  | _ => tm
  end.

(** Running a due timeout of this component. *)
Definition runCallback (cb : Callback) (result : PlayResult) (s : State)
  : State * list Command :=
  match cb with
  | HidePoster => (setShowPosterImage false s, [])
  | DelayedAutoPlay => (playOrPoster result s, [Play])
  end.

Definition togglePlay (hasVideo isStatic : bool) (result : PlayResult)
    (s : State) : State * list Command :=
  if isStatic then (s, [])
  else if negb hasVideo then (s, [])
  else if isPlaying s then (s, [Pause])
  else (playOrPoster result s, [Play]).

(** Unmounting runs both effects' cleanups: the listeners are removed and
    the autoplay timer, if any, is cleared. *)
Definition unmount (timer : option nat) (tm : Timers Callback)
  : Timers Callback :=
  autoPlayCleanup timer tm.

(** *** [formatTime] *)











(** *** Seeking and progress *)

(** [handleProgressClick]: the value assigned to [video.currentTime], or
    [None] when the handler returns first ([!duration] holds for 0). *)
Definition handleProgressClick (hasVideo isStatic : bool)
    (clientX rectLeft rectWidth : Q) (s : State) : option Q :=
  if isStatic then None
  else if negb hasVideo || Qeq_bool (duration s) 0 then None
  else
    let clickX := clientX - rectLeft in
    let newTime := (clickX / rectWidth) * duration s in
    Some newTime.

(** [duration > 0 ? (currentTime / duration) * 100 : 0] *)
Definition progress (s : State) : Q :=
  if negb (Qle_bool (duration s) 0)
  then (currentTime s / duration s) * 100
  else 0.

(** *** What reaches an instance *)

(** The media events the first effect listens to. *)
Inductive MediaEvent : Type :=
  | timeupdate | loadedmetadata | play | pause | playing | error.

(** The listener table of that effect ([addEventListener], lines 120-125),
    in force when there is a video element and the renderer is not
    static. *)
Definition onMediaEvent (hasVideo isStatic : bool) (e : MediaEvent)
    (video : Video) (s : State) (tm : Timers Callback)
  : State * Timers Callback :=
  if negb hasVideo || isStatic then (s, tm)
  else
    match e with
    | timeupdate | loadedmetadata => (updateTime video s, tm)
    | play => (handlePlay s, tm)
    | pause => (handlePause s, tm)
    | playing => (s, handleReady tm)
    | error => (handleError s, tm)
    end.

(** Everything that can happen to a mounted instance: a media event, the
    pointer entering or leaving, a click on a play control, a timeout of
    the instance firing. *)
Inductive Input : Type :=
  | media (e : MediaEvent) (video : Video)
  | mouseEnter
  | mouseLeave
  | clickPlay (result : PlayResult)
  | timeout (cb : Callback) (result : PlayResult).

Definition react (hasVideo isStatic : bool) (i : Input) (s : State)
  : State :=
  match i with
  | media e video =>
      fst (onMediaEvent hasVideo isStatic e video s (fresh 0))
  | mouseEnter => setIsHovered true s
  | mouseLeave => setIsHovered false s
  | clickPlay result => fst (togglePlay hasVideo isStatic result s)
  | timeout cb result => fst (runCallback cb result s)
  end.

(** The state after a sequence of inputs, oldest first. *)
Definition run (hasVideo isStatic : bool) (inputs : list Input) (s : State)
  : State :=
  fold_left (fun s i => react hasVideo isStatic i s) inputs s.

End VideoPlayer.

(** ** AmbiLight video player (AmbiLightVideo) *)

Module AmbiLight.
Import Browser.
Local Open Scope Q_scope.

(** *** The page-wide [window] object *)

(** [window.YT], once the IFrame API script has run; [Player] tells whether
    [YT.Player] is there. *)
Record YTApi : Type := mkYTApi { Player : bool }.

(** The fields of [window] and [document] the component touches.  There is
    one [Window] per page, whatever the number of mounted instances. *)
Record Window : Type := mkWindow
  { YT : option YTApi;
    _ytApiLoading : bool;
    head : list string }.

(** [window.YT && window.YT.Player] *)
Definition apiReady (w : Window) : bool :=
  match YT w with
  | Some api => Player api
  | None => false
  end.

Definition iframe_api : string := "https://www.youtube.com/iframe_api".

Definition loadYouTubeAPI (w : Window) : Window :=
  if apiReady w then w
  else if _ytApiLoading w then w
  else {| YT := YT w;
          _ytApiLoading := true;
          head := head w ++ [iframe_api] |}.

(** *** One instance *)

Inductive SourceType : Type := upload | url | youtube.

Inductive RenderTarget : Type := canvas | preview | export | thumbnail.

Record Props : Type := mkProps
  { sourceType : SourceType;
    youTubeId : string;
    autoplay : bool;
    startTime : Q;
    blur : Q;
    spread : Q;
    intensity : Q;
    saturate : Q;
    brightness : Q }.

Definition isYouTube (pr : Props) : bool :=
  match sourceType pr with youtube => true | _ => false end.

(** Per-instance state: the [isPlaying] cell, whether [ytPlayerRef] holds a
    player, and the polling interval of the running effect. *)
Record Instance : Type := mkInstance
  { isPlaying : bool; ytPlayer : bool; interval : option nat }.

Definition mounted : Instance :=
  {| isPlaying := false; ytPlayer := false; interval := None |}.

Definition setIsPlaying (b : bool) (i : Instance) : Instance :=
  {| isPlaying := b; ytPlayer := ytPlayer i; interval := interval i |}.

(** What the polling interval does each time it fires. *)
Inductive Callback : Type := PollYT.

(** [setupYT]: without the main iframe nothing happens. *)
Definition setupYT (hasMainFrame : bool) (i : Instance) : Instance :=
  if negb hasMainFrame then i
  else {| isPlaying := isPlaying i; ytPlayer := true;
          interval := interval i |}.

(** The YouTube effect, run at mount. *)
Definition youTubeEffect (target : RenderTarget) (pr : Props)
    (hasMainFrame : bool)
    (w : Window) (i : Instance) (tm : Timers Callback)
  : Window * Instance * Timers Callback :=
  match target with
  | export | thumbnail => (w, i, tm)
  | canvas | preview =>
      if negb (isYouTube pr) || String.eqb (youTubeId pr) "" then (w, i, tm)
      else if negb (apiReady w) then
        let w := loadYouTubeAPI w in
        let '(h, tm) := setInterval PollYT 100 tm in
        (w, {| isPlaying := isPlaying i; ytPlayer := ytPlayer i;
               interval := Some h |}, tm)
      else (w, setupYT hasMainFrame i, tm)
  end.


(** The interval's callback. *)
Definition pollYT (hasMainFrame : bool)
    (w : Window) (i : Instance) (tm : Timers Callback)
  : Instance * Timers Callback :=
  if apiReady w then
    match interval i with
    | Some h => (setupYT hasMainFrame i, clearInterval h tm)
    | None => (setupYT hasMainFrame i, tm)
    end
  else (i, tm).

(** The cleanup the effect returns: [() => clearInterval(i)] in the polling
    branch, nothing otherwise. *)
Definition youTubeCleanup (i : Instance) (tm : Timers Callback)
  : Instance * Timers Callback :=
  match interval i with
  | Some h =>
      ({| isPlaying := isPlaying i; ytPlayer := ytPlayer i;
          interval := None |}, clearInterval h tm)
  | None => (i, tm)
  end.

(** [onStateChange]: 1 is playing, 2 paused, 0 ended. *)
Definition onStateChange (st : Z) (i : Instance) : Instance :=
  let i := if (st =? 1)%Z then setIsPlaying true i else i in
  if (st =? 2)%Z || (st =? 0)%Z then setIsPlaying false i else i.

(** Media events of the main [<video>]. *)
Inductive MediaEvent : Type := play | pause | ended.

Definition onMediaEvent (e : MediaEvent) (i : Instance) : Instance :=
  match e with
  | play => setIsPlaying true i
  | pause | ended => setIsPlaying false i
  end.

(** *** Glow synchronisation *)

(** What [sync] reads and writes of a [<video>] element. *)
Record Media : Type := mkMedia { currentTime : Q; paused : bool }.

(** [g.play()]: the element leaves the paused state at once unless the
    browser refuses playback, in which case the promise rejects and the
    rejection is swallowed. *)
Definition playGlow (allowed : bool) (g : Media) : Media :=
  if allowed then {| currentTime := currentTime g; paused := false |}
  else g.

Definition pauseGlow (g : Media) : Media :=
  {| currentTime := currentTime g; paused := true |}.

(** [Math.abs(a - b) > 0.2] *)
Definition drifted (a b : Q) : bool := negb (Qle_bool (Qabs (a - b)) 0.2).

(** The [timeupdate] listener; it returns the glow element. *)
Definition sync (allowed : bool) (v g : Media) : Media :=
  let g :=
    if drifted (currentTime g) (currentTime v)
    then {| currentTime := currentTime v; paused := paused g |}
    else g in
  let g := if paused v && negb (paused g) then pauseGlow g else g in
  if negb (paused v) && paused g then playGlow allowed g else g.

(** *** Glow opacity *)





(** *** Sample inputs *)

(** A page on which no instance has mounted yet. *)
Definition blankWindow : Window :=
  {| YT := None; _ytApiLoading := false; head := [] |}.

(** An instance showing a YouTube video, other props at their defaults. *)
Definition youTubeProps : Props :=
  {| sourceType := youtube; youTubeId := "dQw4w9WgXcQ"; autoplay := true;
     startTime := 0; blur := 48; spread := 1; intensity := 1;
     saturate := 1.5; brightness := 1.5 |}.

(** *** [ytId] *)

(** What [ytId] reads of [new URL(url)]: the host name, the path, and
    [searchParams.get("v")], [None] being [null]. *)
Record URL : Type := mkURL
  { hostname : string; pathname : string; searchV : option string }.

(** [s.includes(sub)] *)
Fixpoint includes (sub s : string) : bool :=
  String.prefix sub s
  || match s with
     | EmptyString => false
     | String _ rest => includes sub rest
     end.

(** [s.slice(1)] *)
Definition slice1 (s : string) : string :=
  match s with
  | EmptyString => EmptyString
  | String _ rest => rest
  end.

(** [[^\/\?]] *)
Definition idChar (c : ascii) : bool :=
  negb (Ascii.eqb c "/" || Ascii.eqb c "?").

(** The longest run of [idChar]s at the start of [s], what the greedy
    [[^\/\?]+] takes. *)
Fixpoint takeId (s : string) : string :=
  match s with
  | EmptyString => EmptyString
  | String c rest => if idChar c then String c (takeId rest) else EmptyString
  end.

(** Whether [s] is made of [idChar]s only. *)
Fixpoint cleanId (s : string) : bool :=
  match s with
  | EmptyString => true
  | String c rest => idChar c && cleanId rest
  end.

Fixpoint drop (n : nat) (s : string) : string :=
  match n, s with
  | O, _ => s
  | S _, EmptyString => EmptyString
  | S k, String _ rest => drop k rest
  end.

(** The pattern [\/(embed|shorts)\/([^\/\?]+)] tried at the start of [s]:
    its second group. *)
Definition matchHere (s : string) : option string :=
  let after (lead : string) : option string :=
    if String.prefix lead s then
      match takeId (drop (String.length lead) s) with
      | EmptyString => None
      | id => Some id
      end
    else None in
  match after "/embed/"%string with
  | Some id => Some id
  | None => after "/shorts/"%string
  end.

(** [pathname.match(...)]: the leftmost match; [m[2]]. *)
Fixpoint matchId (s : string) : option string :=
  match matchHere s with
  | Some id => Some id
  | None =>
      match s with
      | EmptyString => None
      | String _ rest => matchId rest
      end
  end.

(** [ytId(url)]; [None] is a string [new URL] rejects, which the [catch]
    turns into the empty id. *)
Definition ytId (u : option URL) : string :=
  match u with
  | None => EmptyString
  | Some u =>
      if includes "youtu.be" (hostname u) then slice1 (pathname u)
      else if includes "youtube.com" (hostname u) then
        match searchV u with
        | Some (String c rest) => String c rest
        | _ =>
            match matchId (pathname u) with
            | Some id => id
            | None => EmptyString
            end
        end
      else EmptyString
  end.

(** *** The [startTime] effect *)

(** A [<video>] element with its [readyState]. *)
Record Element : Type := mkElement { media : Media; readyState : Z }.

Definition setCurrentTime (t : Q) (e : Element) : Element :=
  {| media := {| currentTime := t; paused := paused (media e) |};
     readyState := readyState e |}.

(** [Math.max(0, startTime)] *)
Definition Math_max0 (t : Q) : Q := if Qle_bool 0 t then t else 0.

(** The [loadedmetadata] listeners the effect leaves, each [{ once: true }]:
    [seek] on the main video, the glow's own seek on the glow. *)
Record SeekListeners : Type := mkSeekListeners
  { onMain : bool; onGlow : bool }.

(** [seek] *)
Definition seek (startTime : Q) (vg : Element * Element)
  : Element * Element :=
  (setCurrentTime (Math_max0 startTime) (fst vg),
   setCurrentTime (Math_max0 startTime) (snd vg)).

(** The effect on [[startTime, isYouTube]], given both elements. *)
Definition startTimeEffect (pr : Props) (vg : Element * Element)
  : Element * Element * SeekListeners :=
  if isYouTube pr then (vg, {| onMain := false; onGlow := false |})
  else if negb (Qle_bool (startTime pr) 0) then
    let needMain := negb (1 <=? readyState (fst vg))%Z in
    let vg' := if needMain then vg else seek (startTime pr) vg in
    (vg', {| onMain := needMain;
             onGlow := (readyState (snd vg) <? 1)%Z |})
  else (vg, {| onMain := false; onGlow := false |}).

(** [loadedmetadata] on the main video. *)
Definition mainLoadedMetadata (pr : Props)
    (s : Element * Element * SeekListeners)
  : Element * Element * SeekListeners :=
  let '(vg, l) := s in
  if onMain l
  then (seek (startTime pr) vg, {| onMain := false; onGlow := onGlow l |})
  else s.

(** [loadedmetadata] on the glow video. *)
Definition glowLoadedMetadata (pr : Props)
    (s : Element * Element * SeekListeners)
  : Element * Element * SeekListeners :=
  let '(vg, l) := s in
  if onGlow l
  then ((fst vg, setCurrentTime (Math_max0 (startTime pr)) (snd vg)),
        {| onMain := onMain l; onGlow := false |})
  else s.

End AmbiLight.

(** ** Analog clock (Clock) *)

Module Clock.
Import Browser.
Local Open Scope Q_scope.

(** The interval's callback is [() => setNow(new Date())]. *)
Inductive Callback : Type := SetNow.

(** The handle the running effect holds for its cleanup. *)
Record Instance : Type := mkInstance { interval : option nat }.

(** The effect on [[isOnCanvas]]: nothing on the canvas, else a one-second
    interval. *)
Definition tickEffect (isOnCanvas : bool) (tm : Timers Callback)
  : Instance * Timers Callback :=
  if isOnCanvas then ({| interval := None |}, tm)
  else
    let '(h, tm) := setInterval SetNow 1000 tm in
    ({| interval := Some h |}, tm).

(** [() => clearInterval(interval)] *)
Definition tickCleanup (i : Instance) (tm : Timers Callback)
  : Timers Callback :=
  match interval i with
  | Some h => clearInterval h tm
  | None => tm
  end.

(** *** The face *)

(** What the render reads of [now]: [getHours()] in 0..23, [getMinutes()]
    and [getSeconds()] in 0..59. *)
Record Date : Type := mkDate
  { getHours : Z; getMinutes : Z; getSeconds : Z }.

Definition validDate (now : Date) : Prop :=
  (0 <= getHours now < 24)%Z
  /\ (0 <= getMinutes now < 60)%Z
  /\ (0 <= getSeconds now < 60)%Z.

Local Open Scope R_scope.

Definition size : R := 180.
Definition center : R := size / 2.
Definition radius : R := center - 8.

(** [now.getHours() % 12] *)
Definition hour (now : Date) : Z := Z.rem (getHours now) 12.

(** Angles, in degrees. *)
Definition hourAngle (now : Date) : R :=
  (IZR (hour now) + IZR (getMinutes now) / 60) * 30.

Definition minuteAngle (now : Date) : R :=
  (IZR (getMinutes now) + IZR (getSeconds now) / 60) * 6.

Definition secondAngle (now : Date) : R := IZR (getSeconds now) * 6.

(** Hand lengths. *)
Definition hourLen : R := radius * 0.5.
Definition minLen : R := radius * 0.75.
Definition secLen : R := radius * 0.85.

(** The far end of a hand: [x2] and [y2] of its [<line>]. *)
Definition handTip (len angle : R) : R * R :=
  (center + len * cos ((angle - 90) * (PI / 180)),
   center + len * sin ((angle - 90) * (PI / 180))).

(** The [i]-th tick: [(x1, y1)] and [(x2, y2)]. *)
Definition tickMark (i : nat) : (R * R) * (R * R) :=
  let angle := (INR i * 30 - 90) * (PI / 180) in
  ((center + cos angle * (radius - 6), center + sin angle * (radius - 6)),
   (center + cos angle * (radius - 2), center + sin angle * (radius - 2))).

(** [showTicks ? Array.from({ length: 12 }).map(...) : null] *)
Definition ticks (showTicks : bool) : option (list ((R * R) * (R * R))) :=
  if showTicks then Some (map tickMark (seq 0 12)) else None.

End Clock.

(* ================================================================== *)
(** * Part II: properties *)
(* ================================================================== *)

(** ** Logo preloader *)

Module LogoPreloaderFacts.
Import Browser LogoPreloader.
Local Open Scope Q_scope.

Lemma clampDelay_nonneg (d : Q) : 0 <= d -> clampDelay d = d.
Proof.
  intros H. unfold clampDelay.
  apply Qle_bool_iff in H. rewrite H. reflexivity.
Qed.


(** With nothing pending, no callback runs. *)
Lemma runTimers_idle {fuel i} {tm : Timers Phase} :
  pending tm = [] -> runTimers fuel i tm = ([], i, tm).
Proof.
  intros H. destruct fuel; [reflexivity|].
  simpl. unfold fire. rewrite H. reflexivity.
Qed.


(** Under the static renderer the effect schedules nothing. *)
Lemma static_renderer_schedules_nothing duration i (tm : Timers Phase) :
  timersEffect true duration i tm = (i, tm).
Proof. reflexivity. Qed.

(** The component renders nothing in phase [done], and only then. *)
Lemma render_nothing_iff_done (p : Phase) : render p = None <-> p = done.
Proof. destruct p; cbn; split; intros H; congruence. Qed.



(** Outside the control's range: with a negative [duration] the two later
    timeouts are clamped to 0 ms and fire before the first, so the phase
    ends at [loading]. *)
Example preloader_negative_duration :
  let '(i, tm) := timersEffect false (-1) mounted (fresh 0) in
  let '(trace, i', _) := runTimers 3 i tm in
  map snd trace = [logoOut; done; loading] /\ phase i' = loading.
Proof. vm_compute. split; reflexivity. Qed.

End LogoPreloaderFacts.

(** ** Infinite gallery *)

Module GalleryFacts.
Import Browser Gallery.
Local Open Scope R_scope.

Lemma point_eq (p q : Point) : x p = x q -> y p = y q -> p = q.
Proof. destruct p, q; simpl; intros -> ->; reflexivity. Qed.

Lemma point_nonzero (p : Point) : p <> origin -> x p <> 0 \/ y p <> 0.
Proof.
  intros Hp. destruct (Req_dec_T (x p) 0) as [Ex|Ex]; [right | left; exact Ex].
  intros Ey. apply Hp. apply point_eq; assumption.
Qed.

(** *** [Math.hypot], [Math.atan2] and [Math.pow] *)

Section Trigonometry.
Implicit Types a b k e : R.

Lemma hypot_nonneg a b : 0 <= Math_hypot a b.
Proof. apply sqrt_pos. Qed.

Lemma hypot_sqr a b : Math_hypot a b * Math_hypot a b = a * a + b * b.
Proof. unfold Math_hypot. apply sqrt_sqrt. nra. Qed.

Lemma hypot_pos a b : a <> 0 \/ b <> 0 -> 0 < Math_hypot a b.
Proof.
  intros H. unfold Math_hypot. apply sqrt_lt_R0.
  destruct H as [H|H]; nra.
Qed.

(** Scaling a vector by [k >= 0] scales its length by [k]. *)
Lemma hypot_scale k a b :
  0 <= k -> Math_hypot (a * k) (b * k) = k * Math_hypot a b.
Proof.
  intros Hk. unfold Math_hypot.
  replace (a * k * (a * k) + b * k * (b * k))
    with ((k * k) * (a * a + b * b)) by ring.
  rewrite sqrt_mult by nra. rewrite sqrt_square by exact Hk. reflexivity.
Qed.

Lemma sqrt_one_plus_sqr b a :
  a <> 0 -> sqrt (1 + (b / a)²) = Math_hypot a b / Rabs a.
Proof.
  intros Ha.
  assert (Hpos : 0 < Rabs a) by (apply Rabs_pos_lt; exact Ha).
  apply sqrt_lem_1.
  - unfold Rsqr. assert (0 <= (b / a) * (b / a)) by nra. lra.
  - apply Rle_mult_inv_pos; [apply hypot_nonneg | exact Hpos].
  - unfold Rdiv.
    replace (Math_hypot a b * / Rabs a * (Math_hypot a b * / Rabs a))
      with ((Math_hypot a b * Math_hypot a b) * / (Rabs a * Rabs a))
      by (field; lra).
    rewrite hypot_sqr.
    replace (Rabs a * Rabs a) with (a * a)
      by (unfold Rabs; destruct (Rcase_abs a); ring).
    unfold Rsqr. field. exact Ha.
Qed.

Lemma cos_atan_div b a :
  a <> 0 -> cos (atan (b / a)) = Rabs a / Math_hypot a b.
Proof.
  intros Ha. rewrite cos_atan, (sqrt_one_plus_sqr b a Ha).
  assert (0 < Math_hypot a b) by (apply hypot_pos; left; exact Ha).
  assert (0 < Rabs a) by (apply Rabs_pos_lt; exact Ha).
  field. split; lra.
Qed.

Lemma sin_atan_div b a :
  a <> 0 -> sin (atan (b / a)) = (b / a) * Rabs a / Math_hypot a b.
Proof.
  intros Ha. rewrite sin_atan, (sqrt_one_plus_sqr b a Ha).
  assert (0 < Math_hypot a b) by (apply hypot_pos; left; exact Ha).
  assert (0 < Rabs a) by (apply Rabs_pos_lt; exact Ha).
  field. repeat split; lra.
Qed.

Lemma cos_minus_PI a : cos (a - PI) = - cos a.
Proof.
  pose proof (neg_cos (a - PI)) as H.
  replace (a - PI + PI) with a in H by ring. lra.
Qed.

Lemma sin_minus_PI a : sin (a - PI) = - sin a.
Proof.
  pose proof (neg_sin (a - PI)) as H.
  replace (a - PI + PI) with a in H by ring. lra.
Qed.

(** The angle [Math.atan2] returns points along the vector. *)
Lemma atan2_direction b a :
  a <> 0 \/ b <> 0 ->
  cos (Math_atan2 b a) = a / Math_hypot a b
  /\ sin (Math_atan2 b a) = b / Math_hypot a b.
Proof.
  intros Hnz. pose proof (hypot_pos a b Hnz) as Hh.
  unfold Math_atan2.
  destruct (total_order_T a 0) as [[Ha|Ha]|Ha].
  - assert (Ha0 : a <> 0) by lra.
    assert (Habs : Rabs a = - a) by (apply Rabs_left; exact Ha).
    destruct (Rle_dec 0 b).
    + rewrite neg_cos, neg_sin, cos_atan_div, sin_atan_div, Habs
        by exact Ha0.
      split; field; lra.
    + rewrite cos_minus_PI, sin_minus_PI, cos_atan_div, sin_atan_div, Habs
        by exact Ha0.
      split; field; lra.
  - subst a. assert (Hb0 : b <> 0) by (destruct Hnz; [lra | assumption]).
    assert (E : Math_hypot 0 b = Rabs b).
    { unfold Math_hypot.
      replace (0 * 0 + b * b) with (Rsqr b) by (unfold Rsqr; ring).
      apply sqrt_Rsqr_abs. }
    rewrite E in *.
    destruct (total_order_T b 0) as [[Hb|Hb]|Hb].
    + rewrite cos_neg, sin_neg, cos_PI2, sin_PI2, (Rabs_left b Hb).
      split; field; lra.
    + contradiction.
    + rewrite cos_PI2, sin_PI2, (Rabs_right b) by lra. split; field; lra.
  - assert (Ha0 : a <> 0) by lra.
    rewrite cos_atan_div, sin_atan_div, (Rabs_right a) by lra.
    split; field; lra.
Qed.

Lemma atan2_origin : Math_atan2 0 0 = 0.
Proof.
  unfold Math_atan2. destruct (total_order_T 0 0) as [[H|H]|H]; lra.
Qed.

(** A base strictly between 0 and 1 raised to a positive power stays
    strictly between 0 and 1. *)
Lemma pow_friction_bounds b e : 0 < b < 1 -> 0 < e -> 0 < Math_pow b e < 1.
Proof.
  intros [Hb0 Hb1] He. unfold Math_pow, Rpower. split.
  - apply exp_pos.
  - rewrite <- exp_0. apply exp_increasing.
    assert (ln b < 0) by (rewrite <- ln_1; apply ln_increasing; lra).
    nra.
Qed.

Lemma Rlt_b_true a b : a < b -> Rlt_b a b = true.
Proof.
  intros H. unfold Rlt_b.
  destruct (Rlt_dec a b); [reflexivity | contradiction].
Qed.

Lemma Rlt_b_false a b : b <= a -> Rlt_b a b = false.
Proof.
  intros H. unfold Rlt_b. destruct (Rlt_dec a b); [lra | reflexivity].
Qed.

End Trigonometry.

(** *** Pinned zoom *)

(** Zooming to the size one already has moves nothing. *)
Lemma computePinnedOffset_same_size (s : R) (pivot off : Point) :
  s <> 0 -> computePinnedOffset s s pivot off = off.
Proof.
  intros Hs.
  apply point_eq; unfold computePinnedOffset; simpl; field; exact Hs.
Qed.

(** C1 (as amended): with numbers read as exact reals, for every
    [prevSize <> 0] and [nextSize <> 0] the offset returned by
    [computePinnedOffset] leaves the world coordinate under the pivot
    unchanged in both axes, and for [nextSize = prevSize] it is the
    previous offset. *)
Theorem computePinnedOffset_pins
    (prevSize nextSize : R) (pivot prevOffset : Point) :
  prevSize <> 0 -> nextSize <> 0 ->
  let newOffset := computePinnedOffset prevSize nextSize pivot prevOffset in
  (x pivot - x newOffset) / nextSize = (x pivot - x prevOffset) / prevSize
  /\ (y pivot - y newOffset) / nextSize = (y pivot - y prevOffset) / prevSize
  /\ (nextSize = prevSize -> newOffset = prevOffset).
Proof.
  intros Hp Hn; cbv zeta; repeat split.
  - unfold computePinnedOffset; simpl; field; split; assumption.
  - unfold computePinnedOffset; simpl; field; split; assumption.
  - intros ->. apply computePinnedOffset_same_size; exact Hp.
Qed.

Lemma computePinnedOffset_pins_witness :
  let pivot := mkPoint 400 300 in
  let prev := mkPoint 10 20 in
  let newOffset := computePinnedOffset 200 140 pivot prev in
  (200 <> 0 /\ 140 <> 0)
  /\ (x pivot - x newOffset) / 140 = (x pivot - x prev) / 200
  /\ (y pivot - y newOffset) / 140 = (y pivot - y prev) / 200
  /\ (140 = 200 -> newOffset = prev).
Proof.
  assert (H200 : 200 <> 0) by lra.
  assert (H140 : 140 <> 0) by lra.
  cbv zeta. split; [split; assumption|].
  exact (computePinnedOffset_pins 200 140 (mkPoint 400 300) (mkPoint 10 20)
           H200 H140).
Defined.

(** C1 fails as stated at [nextSize = 0]: the returned offset is the pivot
    itself, so the left-hand side is [0 / 0] while the world coordinate on
    the right is [1]. *)
Lemma computePinnedOffset_zero_nextSize :
  let pivot := mkPoint 1 1 in
  let prev := mkPoint 0 0 in
  let newOffset := computePinnedOffset 1 0 pivot prev in
  (1 : R) <> 0
  /\ newOffset = pivot
  /\ (x pivot - x newOffset) / 0 <> (x pivot - x prev) / 1.
Proof.
  cbv zeta; unfold computePinnedOffset; simpl; repeat split.
  - lra.
  - apply point_eq; simpl; lra.
  - replace (1 - (1 - (1 - 0) / 1 * 0)) with 0 by lra.
    unfold Rdiv at 1; rewrite Rmult_0_l; lra.
Qed.

(** *** Inertia *)

Lemma refs_easeSize g : refs (easeSize g) = refs g.
Proof. reflexivity. Qed.

Lemma refs_easeOffset g : refs (easeOffset g) = refs g.
Proof.
  unfold easeOffset. destruct (negb (draggingRef (refs g))); reflexivity.
Qed.

Lemma refs_easeParallax pr g : refs (easeParallax pr g) = refs g.
Proof.
  unfold easeParallax.
  destruct (parallaxEnabled pr
            && (parallaxWhileDragging pr || negb (draggingRef (refs g))));
    reflexivity.
Qed.

(** The velocity a tick leaves behind while inertia is running. *)
Lemma tick_velocity pr now untilRepaint g tm :
  inertiaEnabled pr = true -> inertiaActiveRef (refs g) = true ->
  velocityRef (refs (fst (tick pr now untilRepaint g tm)))
  = keepCreeping (decayed pr (frameDt now g) (velocityRef (refs g))).
Proof.
  intros He Ha. unfold tick.
  destruct (requestAnimationFrame TickCb untilRepaint tm) as [h tm'].
  cbn [fst refs]. rewrite refs_easeParallax.
  unfold inertiaUpdate.
  rewrite refs_easeOffset, refs_easeSize.
  cbn [ref refs assign inertiaActiveRef velocityRef].
  rewrite He, Ha. reflexivity.
Qed.

(** With inertia switched off or at rest, a tick leaves the velocity as it
    was. *)
Lemma tick_velocity_idle pr now untilRepaint g tm :
  inertiaEnabled pr && inertiaActiveRef (refs g) = false ->
  velocityRef (refs (fst (tick pr now untilRepaint g tm)))
  = velocityRef (refs g).
Proof.
  intros Hoff. unfold tick.
  destruct (requestAnimationFrame TickCb untilRepaint tm) as [h tm'].
  cbn [fst refs]. rewrite refs_easeParallax.
  unfold inertiaUpdate.
  rewrite refs_easeOffset, refs_easeSize.
  cbn [ref refs assign inertiaActiveRef velocityRef].
  rewrite Hoff. rewrite refs_easeOffset, refs_easeSize. reflexivity.
Qed.

Lemma frameDt_pos now g :
  lastTimeRef (refs g) < now -> 0 < frameDt now g <= 0.05.
Proof.
  intros H. unfold frameDt.
  assert (0 < (now - lastTimeRef (refs g)) / 1000)
    by (apply Rdiv_lt_0_compat; lra).
  unfold Rmin.
  destruct (Rle_dec 0.05 ((now - lastTimeRef (refs g)) / 1000)); lra.
Qed.

Lemma speed_nonneg v : 0 <= speed v.
Proof. apply hypot_nonneg. Qed.

Lemma speed_origin : speed origin = 0.
Proof.
  unfold speed, Math_hypot, origin; cbn [x y].
  replace (0 * 0 + 0 * 0) with 0 by ring. apply sqrt_0.
Qed.

Lemma speed_decayed pr dt v :
  0 < throwFriction pr < 1 -> 0 < dt ->
  speed (decayed pr dt v) = Math_pow (throwFriction pr) (dt * 60) * speed v.
Proof.
  intros Hf Hdt. unfold speed, decayed. cbn [x y].
  apply hypot_scale.
  pose proof (pow_friction_bounds (throwFriction pr) (dt * 60) Hf). lra.
Qed.

Lemma keepCreeping_fast v : 1 <= speed v -> keepCreeping v = v.
Proof.
  intros H. unfold keepCreeping. rewrite (Rlt_b_false _ _ H). reflexivity.
Qed.

(** Below 1 px/s the velocity becomes the unit vector of its direction
    times 0.0001. *)
Lemma keepCreeping_slow v :
  speed v < 1 -> v <> origin ->
  keepCreeping v = {| x := 0.0001 * (x v / speed v);
                      y := 0.0001 * (y v / speed v) |}.
Proof.
  intros Hs Hv. unfold keepCreeping. rewrite (Rlt_b_true _ _ Hs).
  destruct (atan2_direction (y v) (x v) (point_nonzero v Hv)) as [Hc Hsn].
  rewrite Hc, Hsn. unfold speed.
  assert (Hh : Math_hypot (x v) (y v) <> 0).
  { apply Rgt_not_eq. apply hypot_pos. apply point_nonzero. exact Hv. }
  apply point_eq; cbn [x y]; field; exact Hh.
Qed.

(** At rest, [Math.atan2(0, 0)] is 0 and the creep points along x. *)
Lemma keepCreeping_origin : keepCreeping origin = {| x := 0.0001; y := 0 |}.
Proof.
  unfold keepCreeping. rewrite speed_origin, (Rlt_b_true 0 1) by lra.
  cbn [origin x y]. rewrite atan2_origin, cos_0, sin_0.
  apply point_eq; cbn [x y]; ring.
Qed.

Lemma speed_keepCreeping_slow v :
  speed v < 1 -> speed (keepCreeping v) = 0.0001.
Proof.
  intros H. unfold keepCreeping. rewrite (Rlt_b_true _ _ H).
  unfold speed, Math_hypot. cbn [x y].
  set (d := Math_atan2 (y v) (x v)).
  replace (cos d * 0.0001 * (cos d * 0.0001)
           + sin d * 0.0001 * (sin d * 0.0001))
    with ((Rsqr (sin d) + Rsqr (cos d)) * (0.0001 * 0.0001))
    by (unfold Rsqr; ring).
  rewrite sin2_cos2, Rmult_1_l. apply sqrt_square. lra.
Qed.

(** C2: while inertia is active, a tick with [0 < throwFriction < 1] and
    [dt > 0] multiplies both velocity components by
    [throwFriction ^ (dt * 60)], a factor strictly between 0 and 1; if the
    speed was at least 1 px/s it is strictly smaller after the tick; if the
    decayed speed is below 1 px/s the velocity is reset to magnitude 0.0001
    along the decayed velocity's direction; and the velocity the tick
    leaves is never the zero vector. *)
Theorem tick_inertia_friction
    (pr : Props) (now : R) (untilRepaint : Q)
    (g : Instance) (tm : Timers Callback) :
  inertiaEnabled pr = true ->
  inertiaActiveRef (refs g) = true ->
  0 < throwFriction pr < 1 ->
  lastTimeRef (refs g) < now ->
  let dt := frameDt now g in
  let f := Math_pow (throwFriction pr) (dt * 60) in
  let v := velocityRef (refs g) in
  let d := decayed pr dt v in
  let v' := velocityRef (refs (fst (tick pr now untilRepaint g tm))) in
  0 < dt
  /\ 0 < f < 1
  /\ d = {| x := x v * f; y := y v * f |}
  /\ (1 <= speed d -> v' = d)
  /\ (speed d < 1 ->
      speed v' = 0.0001
      /\ (d <> origin ->
          x v' = 0.0001 * (x d / speed d)
          /\ y v' = 0.0001 * (y d / speed d)))
  /\ (1 <= speed v -> speed v' < speed v)
  /\ v' <> origin.
Proof.
  intros He Ha Hf Hnow dt f v d v'.
  pose proof (frameDt_pos now g Hnow) as [Hdt _]. fold dt in Hdt.
  assert (Hfb : 0 < f < 1).
  { unfold f. apply pow_friction_bounds; [exact Hf | lra]. }
  assert (Hv' : v' = keepCreeping d).
  { unfold v', d, v, dt. apply tick_velocity; assumption. }
  assert (Hsd : speed d = f * speed v).
  { unfold d, f. apply speed_decayed; assumption. }
  pose proof (speed_nonneg v) as Hsv.
  assert (Hfast : 1 <= speed d -> v' = d).
  { intros H. rewrite Hv'. apply keepCreeping_fast. exact H. }
  assert (Hslow : speed d < 1 -> speed v' = 0.0001).
  { intros H. rewrite Hv'. apply speed_keepCreeping_slow. exact H. }
  split; [exact Hdt|]. split; [exact Hfb|]. split; [reflexivity|].
  split; [exact Hfast|]. split; [|split].
  - intros Hlt. split; [exact (Hslow Hlt)|].
    intros Hd. rewrite Hv', (keepCreeping_slow d Hlt Hd). cbn [x y].
    split; reflexivity.
  - intros Hge. destruct (Rlt_dec (speed d) 1) as [Hlt|Hnlt].
    + rewrite (Hslow Hlt). lra.
    + rewrite (Hfast (Rnot_lt_le _ _ Hnlt)), Hsd. nra.
  - intros E. pose proof speed_origin as Hz. rewrite <- E in Hz.
    destruct (Rlt_dec (speed d) 1) as [Hlt|Hnlt].
    + rewrite (Hslow Hlt) in Hz. lra.
    + rewrite (Hfast (Rnot_lt_le _ _ Hnlt)) in Hz. lra.
Qed.

Lemma tick_inertia_friction_witness :
  let pr := defaultProps in
  let g := thrown pr 0 {| x := 300; y := 400 |} in
  let tm := fresh 0%Q in
  (inertiaEnabled pr = true
   /\ inertiaActiveRef (refs g) = true
   /\ 0 < throwFriction pr < 1
   /\ lastTimeRef (refs g) < 16)
  /\ (let dt := frameDt 16 g in
      let f := Math_pow (throwFriction pr) (dt * 60) in
      let v := velocityRef (refs g) in
      let d := decayed pr dt v in
      let v' := velocityRef (refs (fst (tick pr 16 16%Q g tm))) in
      0 < dt
      /\ 0 < f < 1
      /\ d = {| x := x v * f; y := y v * f |}
      /\ (1 <= speed d -> v' = d)
      /\ (speed d < 1 ->
          speed v' = 0.0001
          /\ (d <> origin ->
              x v' = 0.0001 * (x d / speed d)
              /\ y v' = 0.0001 * (y d / speed d)))
      /\ (1 <= speed v -> speed v' < speed v)
      /\ v' <> origin).
Proof.
  assert (Hf : 0 < throwFriction defaultProps < 1)
    by (unfold defaultProps, throwFriction; lra).
  assert (Ht : lastTimeRef
                 (refs (thrown defaultProps 0 {| x := 300; y := 400 |})) < 16)
    by (cbn [thrown ref refs assign mounted lastTimeRef]; lra).
  cbv zeta. split.
  - repeat split; try reflexivity; solve [apply Hf | exact Ht].
  - exact (tick_inertia_friction defaultProps 16 16%Q
             (thrown defaultProps 0 {| x := 300; y := 400 |}) (fresh 0%Q)
             eq_refl eq_refl Hf Ht).
Defined.

(** *** Tile lookup *)

Lemma itemIndex_range (x y length : Z) :
  (0 < length)%Z ->
  exists i, itemIndex x y length = Some i /\ (0 <= i <= length - 1)%Z.
Proof.
  intros Hlen. unfold itemIndex.
  destruct (Z.eqb_spec length 0) as [E|_]; [lia|].
  eexists; split; [reflexivity|].
  pose proof (Z.rem_bound_abs (x + y * 3) length ltac:(lia)) as Hb.
  lia.
Qed.

Lemma flat_map_rows_length {A B : Type} (row : A -> list B) (n : nat)
    (l : list A) :
  (forall j, List.length (row j) = n) ->
  List.length (flat_map row l) = (n * List.length l)%nat.
Proof.
  intros Hrow. induction l as [|j l IH]; cbn [flat_map List.length].
  - lia.
  - rewrite length_app, Hrow, IH. lia.
Qed.

(** The grid always has its 20 x 20 tiles. *)
Lemma gridCells_length fallback items startX startY :
  List.length (gridCells fallback items startX startY) = 400%nat.
Proof.
  unfold gridCells.
  rewrite (flat_map_rows_length _ gridSize).
  - rewrite length_seq. reflexivity.
  - intros j. rewrite length_map, length_seq. reflexivity.
Qed.

(** C8: for a non-empty [items] and any integer grid coordinates, the
    index [Math.abs((x + y * 3) % items.length)] is an integer in
    [0, items.length - 1] and [items[itemIndex]] is an item; for an empty
    [items] the index is NaN, the lookup is [undefined], and every field of
    the tile is its placeholder, all 400 tiles being produced. *)
Theorem tile_lookup_in_bounds (items : list GalleryItem) (x y : Z) :
  (items <> [] ->
   exists i it,
     itemIndex x y (Z.of_nat (List.length items)) = Some i
     /\ (0 <= i <= Z.of_nat (List.length items) - 1)%Z
     /\ itemAt items (Some i) = Some it)
  /\ (items = [] ->
      itemIndex x y (Z.of_nat (List.length items)) = None
      /\ (forall fallback,
             tile fallback items x y
             = {| key := (x, y); tileImage := fallback;
                  tileTitle := "Project"; tileYear := 2024;
                  tileHref := "#" |})
      /\ (forall fallback startX startY,
             List.length (gridCells fallback items startX startY) = 400%nat)).
Proof.
  split.
  - intros Hne.
    assert (Hlen : (0 < Z.of_nat (List.length items))%Z).
    { destruct items; [contradiction | cbn [List.length]; lia]. }
    destruct (itemIndex_range x y _ Hlen) as [i [Hi Hb]].
    destruct (nth_error items (Z.to_nat i)) as [it|] eqn:Hnth.
    + exists i, it. repeat split; try assumption; try lia.
      unfold itemAt. destruct (Z.ltb_spec i 0); [lia | exact Hnth].
    + apply nth_error_None in Hnth. lia.
  - intros ->. split; [reflexivity|]. split.
    + intros fallback. reflexivity.
    + intros fallback startX startY. apply gridCells_length.
Qed.

Lemma tile_lookup_in_bounds_witness :
  let items :=
    [ {| title := "Motion Study"; image := None; year := 2024;
         href := "/sample-project" |};
      {| title := "Idle Form"; image := None; year := 2023;
         href := "/sample-project" |} ] in
  items <> []
  /\ exists i it,
       itemIndex (-7) 2 (Z.of_nat (List.length items)) = Some i
       /\ (0 <= i <= Z.of_nat (List.length items) - 1)%Z
       /\ itemAt items (Some i) = Some it.
Proof.
  cbv zeta. split; [discriminate|].
  apply (proj1 (tile_lookup_in_bounds _ (-7) 2)). discriminate.
Defined.

End GalleryFacts.

(** ** Pinned zoom at binary64 *)

Module Binary64Facts.
Import PrimFloat Binary64.
Local Open Scope float_scope.

(** At [nextSize = 0] the quotient the pinning property speaks of is
    [0 / 0], which is NaN. *)
Example binary64_zero_nextSize_is_nan :
  let n := computePinnedOffset 1 0 (mkPoint 1 1) (mkPoint 0 0) in
  PrimFloat.eqb (x n) 1 = true /\ PrimFloat.is_nan ((1 - x n) / 0) = true.
Proof. vm_compute; split; reflexivity. Qed.

(** Rounding: zooming from size 49 to size 49 around the pivot [(1, 1)]
    moves the offset [(0, 0)] to [2^-53], because [1 / 49 * 49] rounds
    below 1.  Pinning is exact only up to rounding. *)
Example binary64_same_size_rounds :
  let n := computePinnedOffset 49 49 (mkPoint 1 1) (mkPoint 0 0) in
  PrimFloat.eqb (x n) 0 = false /\ PrimFloat.eqb (x n) 0x1p-53 = true.
Proof. vm_compute; split; reflexivity. Qed.

End Binary64Facts.

(** ** Minimal video player *)

Module VideoPlayerFacts.
Import Browser VideoPlayer.
Local Open Scope Q_scope.



(** *** [formatTime] *)










End VideoPlayerFacts.

(** ** AmbiLight video player *)

Module AmbiLightFacts.
Import Browser AmbiLight.
Local Open Scope Q_scope.

(** *** Glow opacity *)





(** *** Glow synchronisation *)





(** *** State shared between instances *)










End AmbiLightFacts.

(** ** Timers and teardown *)

Module BrowserFacts.
Import Browser.

Section Liveness.
Context {A : Type}.
Implicit Types (tm : Timers A) (h : nat) (k : TimerKind).

Lemma live_filter h k (keep : Timer A -> bool) (l : list (Timer A)) :
  existsb (targets k h) l = false ->
  existsb (targets k h) (filter keep l) = false.
Proof.
  induction l as [|t l IH]; cbn [filter existsb]; [reflexivity|].
  intros H. apply orb_false_iff in H as [Ht Hl].
  destruct (keep t); cbn [existsb]; [rewrite Ht|]; auto.
Qed.

(** A cancelled handle is not live. *)
Lemma live_cancel h k tm : live h k (cancel k h tm) = false.
Proof.
  unfold live, cancel. cbn [pending].
  induction (pending tm) as [|t l IH]; cbn [filter existsb]; [reflexivity|].
  destruct (targets k h t) eqn:E; cbn [negb].
  - exact IH.
  - cbn [existsb]. rewrite E, IH. reflexivity.
Qed.

(** Cancelling never revives a handle. *)
Lemma dead_cancel h k h' k' tm :
  live h k tm = false -> live h k (cancel k' h' tm) = false.
Proof. unfold live, cancel. cbn [pending]. apply live_filter. Qed.

End Liveness.

End BrowserFacts.

Module LifecycleFacts.
Import Browser BrowserFacts.

(** *** Teardown that does clear its timers *)

(** The preloader's cleanup clears the three timeouts it scheduled. *)
Lemma preloader_cleanup_clears (i : LogoPreloader.Instance)
    (tm : Timers LogoPreloader.Phase) (h : nat) :
  In h (LogoPreloader.timers i) ->
  live h Timeout (snd (LogoPreloader.timersCleanup i tm)) = false.
Proof.
  unfold LogoPreloader.timersCleanup. cbn [snd].
  generalize (LogoPreloader.timers i) as hs. intros hs. revert tm.
  induction hs as [|h' hs IH]; intros tm Hin; [contradiction|].
  cbn [fold_left]. destruct Hin as [->|Hin].
  - clear IH. generalize (live_cancel h Timeout tm).
    unfold clearTimeout. generalize (cancel Timeout h tm) as tm'.
    induction hs as [|h'' hs IH]; intros tm' Hd; cbn [fold_left].
    + exact Hd.
    + apply IH. apply dead_cancel. exact Hd.
  - apply IH. exact Hin.
Qed.

(** The gallery's unmount cancels the pending animation frame. *)
Lemma gallery_unmount_cancels_frame (g : Gallery.Instance)
    (tm : Timers Gallery.Callback) :
  live (Gallery.raf g) Frame (Gallery.unmount g tm) = false.
Proof. apply live_cancel. Qed.

(** The AmbiLight cleanup clears the polling interval. *)
Lemma ambilight_cleanup_clears (i : AmbiLight.Instance)
    (tm : Timers AmbiLight.Callback) (h : nat) :
  AmbiLight.interval i = Some h ->
  live h Interval (snd (AmbiLight.youTubeCleanup i tm)) = false.
Proof.
  intros Hi. unfold AmbiLight.youTubeCleanup. rewrite Hi. cbn [snd].
  apply live_cancel.
Qed.

(** Once the IFrame API is there, the polling interval clears itself. *)
Lemma ambilight_poll_clears (hasMainFrame : bool) (w : AmbiLight.Window)
    (i : AmbiLight.Instance) (tm : Timers AmbiLight.Callback) (h : nat) :
  AmbiLight.apiReady w = true ->
  AmbiLight.interval i = Some h ->
  live h Interval (snd (AmbiLight.pollYT hasMainFrame w i tm)) = false.
Proof.
  intros Hr Hi. unfold AmbiLight.pollYT. rewrite Hr, Hi. cbn [snd].
  apply live_cancel.
Qed.

(** The clock's cleanup clears its interval. *)
Lemma clock_cleanup_clears (isOnCanvas : bool) (tm : Timers Clock.Callback)
    (h : nat) :
  let '(i, tm') := Clock.tickEffect isOnCanvas tm in
  Clock.interval i = Some h ->
  live h Interval (Clock.tickCleanup i tm') = false.
Proof.
  unfold Clock.tickEffect. destruct isOnCanvas.
  - cbn. discriminate.
  - destruct (setInterval Clock.SetNow 1000 tm) as [h' tm'].
    cbn [Clock.interval]. intros [= ->].
    unfold Clock.tickCleanup. cbn [Clock.interval]. apply live_cancel.
Qed.

(** The video player's cleanup clears the autoplay-delay timeout. *)
Lemma video_cleanup_clears (h : nat) (tm : Timers VideoPlayer.Callback) :
  live (S h) Timeout (VideoPlayer.unmount (Some (S h)) tm) = false.
Proof. apply live_cancel. Qed.

(** *** Teardown that leaves a timeout behind *)

Lemma Rneq_b_same (r : R) : Gallery.Rneq_b r r = false.
Proof.
  unfold Gallery.Rneq_b. destruct (Req_dec_T r r); [reflexivity | contradiction].
Qed.

(** C6, at two inputs where it fails.  Gallery: the pointer goes down and
    the instance unmounts before it comes up; the animation frame is
    cancelled but the press-zoom timeout stays pending, and when it fires
    it still sets the target cell size.  Video player: a [playing] event
    arrives and the instance unmounts within 50 ms; the poster timeout
    stays pending. *)
Theorem teardown_leaves_timeouts_live :
  (let pr := Gallery.defaultProps in
   let '(g, tm) := Gallery.rafEffect 16 (Gallery.mounted pr 0) (fresh 0) in
   let '(g, tm) :=
     Gallery.handlePointerDown pr
       {| Gallery.pointerId := 1; Gallery.clientX := 10;
          Gallery.clientY := 10 |} 5 g tm in
   let g := Gallery.syncRefs g in
   let tm := Gallery.unmount g tm in
   live (Gallery.raf g) Frame tm = false
   /\ Gallery.pressTimerRef (Gallery.refs g) = Some 2%nat
   /\ live 2 Timeout tm = true
   /\ map callback (pending tm) = [Gallery.PressZoomCb 200]
   /\ Gallery.targetCellSize
        (Gallery.hooks (Gallery.pressZoom pr 200 None g))
      = (200 * 0.7)%R)
  /\ (let tm := VideoPlayer.handleReady (fresh 0) in
      let tm := VideoPlayer.unmount None tm in
      live 1 Timeout tm = true
      /\ map callback (pending tm) = [VideoPlayer.HidePoster]).
Proof.
  split.
  - cbn -[Gallery.Rneq_b]. rewrite !Rneq_b_same. cbn. repeat split.
  - cbn. repeat split.
Qed.

End LifecycleFacts.

(** ** Timer tables: scheduling and cancelling *)

Module TimerTableFacts.
Import Browser BrowserFacts.

Section Tables.
Context {A : Type}.
Implicit Types (tm : Timers A) (h : nat) (k : TimerKind) (cb : A).

Lemma wellFormed_fresh (now : Q) : wellFormed (fresh (A := A) now).
Proof. unfold wellFormed. cbn. split; [lia | constructor]. Qed.

Lemma wellFormed_schedule k cb (d : Q) tm :
  wellFormed tm -> wellFormed (snd (schedule k cb d tm)).
Proof.
  intros [Hpos Hall]. split; cbn [schedule snd nextHandle pending].
  - lia.
  - apply Forall_app. split.
    + eapply Forall_impl; [|exact Hall]. cbn beta. intros t Ht. lia.
    + constructor; [cbn [handle]; lia | constructor].
Qed.

Lemma wellFormed_cancel k h tm : wellFormed tm -> wellFormed (cancel k h tm).
Proof.
  intros [Hpos Hall]. split; cbn [cancel nextHandle pending].
  - exact Hpos.
  - apply Forall_forall. intros t Ht. apply filter_In in Ht as [Ht _].
    rewrite Forall_forall in Hall. apply Hall. exact Ht.
Qed.

(** Cancelling a handle no pending callback bears leaves the list as it
    is. *)
Lemma filter_older k h (l : list (Timer A)) :
  Forall (fun t => (handle t < h)%nat) l ->
  filter (fun t => negb (targets k h t)) l = l.
Proof.
  induction 1 as [|t l Ht _ IH]; cbn [filter]; [reflexivity|].
  unfold targets at 1.
  destruct (Nat.eqb_spec (handle t) h) as [E|_]; [lia|].
  cbn [andb negb]. rewrite IH. reflexivity.
Qed.

Lemma sameTable_own k h (due period : Q) cb :
  sameTable k (mkTimer h k due period cb) = true.
Proof. destruct k; reflexivity. Qed.

(** Scheduling a callback and cancelling the handle obtained restores the
    pending list. *)
Lemma schedule_cancel k cb (d : Q) tm :
  wellFormed tm ->
  pending (cancel k (fst (schedule k cb d tm)) (snd (schedule k cb d tm)))
  = pending tm.
Proof.
  intros [_ Hall]. cbn [schedule fst snd cancel pending].
  rewrite filter_app, (filter_older _ _ _ Hall). cbn [filter].
  unfold targets. cbn [handle]. rewrite Nat.eqb_refl, sameTable_own.
  cbn [andb negb]. apply app_nil_r.
Qed.

Lemma earliest_In (l : list (Timer A)) (u : Timer A) :
  earliest l = Some u -> In u l.
Proof.
  revert u. induction l as [|t l IH]; cbn [earliest]; [discriminate|].
  intros u. destruct (earliest l) as [v|].
  - destruct (Qle_bool (due t) (due v)); intros [= <-].
    + left. reflexivity.
    + right. apply IH. reflexivity.
  - intros [= <-]. left. reflexivity.
Qed.

(** A callback that is due no later than all those scheduled after it is
    the next to run. *)
Lemma earliest_head (t : Timer A) (l : list (Timer A)) :
  Forall (fun u => (due t <= due u)%Q) l -> earliest (t :: l) = Some t.
Proof.
  intros Hall. cbn [earliest].
  destruct (earliest l) as [v|] eqn:Ev; [|reflexivity].
  apply earliest_In in Ev. rewrite Forall_forall in Hall.
  specialize (Hall v Ev). apply Qle_bool_iff in Hall. rewrite Hall.
  reflexivity.
Qed.

(** Firing takes that callback out and leaves the others. *)
Lemma fire_head (c : Q) (n : nat) (t : Timer A) (l : list (Timer A)) :
  kind t <> Interval ->
  Forall (fun u => (due t <= due u)%Q) l ->
  Forall (fun u => handle u <> handle t) l ->
  fire {| clock := c; nextHandle := n; pending := t :: l |}
  = Some (t, {| clock := due t; nextHandle := n; pending := l |}).
Proof.
  intros Hk Hdue Hh. unfold fire. cbn [pending nextHandle].
  rewrite (earliest_head t l Hdue). cbn [filter].
  assert (Hself : targets (kind t) (handle t) t = true).
  { unfold targets. rewrite Nat.eqb_refl. unfold sameTable.
    destruct (kind t); reflexivity. }
  rewrite Hself. cbn [negb].
  assert (Hrest : filter (fun u => negb (targets (kind t) (handle t) u)) l = l).
  { clear Hdue. induction Hh as [|u l Hu _ IH]; cbn [filter]; [reflexivity|].
    unfold targets at 1. destruct (Nat.eqb_spec (handle u) (handle t)) as [E|_];
      [contradiction|]. cbn [andb negb]. rewrite IH. reflexivity. }
  rewrite Hrest. destruct (kind t); try reflexivity. contradiction.
Qed.

(** An interval alone in the table fires and goes back in, one period
    later. *)
Lemma fire_interval_alone (c : Q) (n h : nat) (d p : Q) (cb : A) :
  fire {| clock := c; nextHandle := n;
          pending := [mkTimer h Interval d p cb] |}
  = Some (mkTimer h Interval d p cb,
          {| clock := d; nextHandle := n;
             pending := [mkTimer h Interval (d + p) p cb] |}).
Proof.
  unfold fire. cbn [pending earliest kind handle filter nextHandle due].
  unfold targets. cbn [handle kind sameTable].
  rewrite Nat.eqb_refl. reflexivity.
Qed.

Lemma fireMany_interval_alone (n h : nat) (p : Q) (cb : A) (k : nat) :
  forall c d,
    fireMany (S k) {| clock := c; nextHandle := n;
                      pending := [mkTimer h Interval d p cb] |}
    = (repeat cb (S k),
       {| clock := Nat.iter k (fun q => q + p)%Q d; nextHandle := n;
          pending :=
            [mkTimer h Interval (Nat.iter (S k) (fun q => q + p)%Q d)
               p cb] |}).
Proof.
  induction k as [|k IH]; intros c d.
  - cbn [fireMany]. rewrite fire_interval_alone. reflexivity.
  - change (fireMany (S (S k)) ?tm)
      with (match fire tm with
            | None => ([], tm)
            | Some (t, tm') =>
                let '(ran, tm'') := fireMany (S k) tm' in
                (callback t :: ran, tm'')
            end).
    rewrite fire_interval_alone, IH. cbn [callback].
    rewrite (Nat.iter_succ_r (S k) _ (fun q => q + p)%Q d).
    rewrite (Nat.iter_succ_r k _ (fun q => q + p)%Q d).
    reflexivity.
Qed.

Lemma iter_period (p d : Q) (k : nat) :
  (Nat.iter k (fun q => q + p) d == d + inject_Z (Z.of_nat k) * p)%Q.
Proof.
  induction k as [|k IH].
  - cbn [Nat.iter nat_rect Z.of_nat]. unfold inject_Z. ring.
  - rewrite Nat.iter_succ, IH, Nat2Z.inj_succ. unfold Z.succ.
    rewrite inject_Z_plus. ring.
Qed.

(** Nothing pending, nothing runs. *)
Lemma fireMany_idle (k : nat) (tm : Timers A) :
  pending tm = [] -> fireMany k tm = ([], tm).
Proof.
  intros Hp. destruct k; [reflexivity|].
  cbn [fireMany]. unfold fire. rewrite Hp. reflexivity.
Qed.

(** Cancelling a handle a second time changes nothing. *)
Lemma cancel_twice k h (tm : Timers A) :
  cancel k h (cancel k h tm) = cancel k h tm.
Proof.
  unfold cancel. cbn [clock nextHandle pending]. f_equal.
  induction (pending tm) as [|t l IH]; cbn [filter]; [reflexivity|].
  destruct (targets k h t) eqn:E; cbn [negb filter]; [exact IH|].
  rewrite E. cbn [negb]. rewrite IH. reflexivity.
Qed.

End Tables.

End TimerTableFacts.

(** ** Logo preloader: unmounting and re-running the effect *)

Module PreloaderLifecycleFacts.
Import Browser BrowserFacts TimerTableFacts LogoPreloader.
Import LogoPreloaderFacts.
Local Open Scope Q_scope.

Lemma filter_swap {A : Type} (f g : A -> bool) (l : list A) :
  filter f (filter g l) = filter g (filter f l).
Proof.
  induction l as [|a l IH]; cbn [filter]; [reflexivity|].
  destruct (f a) eqn:Ef, (g a) eqn:Eg; cbn [filter];
    rewrite ?Ef, ?Eg, IH; reflexivity.
Qed.

(** The effect, with its three calls of [setTimeout] spelled out. *)
Lemma timersEffect_schedules duration i (tm : Timers Phase) :
  timersEffect false duration i tm
  = let s0 := schedule Timeout loading 50 tm in
    let s1 := schedule Timeout logoOut (duration * 1000 + 50) (snd s0) in
    let s2 := schedule Timeout done (duration * 1000 + 750) (snd s1) in
    ({| phase := phase i; timers := [fst s0; fst s1; fst s2] |}, snd s2).
Proof. reflexivity. Qed.

(** X1: unmounting (or re-running the effect) before any timeout
    has fired cancels all three: the pending list is what it was before
    the effect ran, so if nothing else was pending no callback ever runs
    and the phase stays where it was. *)
Theorem preloader_cleanup_restores_timers
    (duration : Q) (i : Instance) (tm : Timers Phase) :
  wellFormed tm ->
  let '(i1, tm1) := timersEffect false duration i tm in
  let '(i2, tm2) := timersCleanup i1 tm1 in
  pending tm2 = pending tm
  /\ timers i2 = []
  /\ phase i2 = phase i
  /\ (pending tm = [] -> forall fuel, runTimers fuel i2 tm2 = ([], i2, tm2)).
Proof.
  intros Hwf. rewrite timersEffect_schedules. cbv zeta.
  set (s0 := schedule Timeout loading 50 tm).
  set (s1 := schedule Timeout logoOut (duration * 1000 + 50) (snd s0)).
  set (s2 := schedule Timeout done (duration * 1000 + 750) (snd s1)).
  assert (Hw0 : wellFormed (snd s0)) by (apply wellFormed_schedule; exact Hwf).
  assert (Hw1 : wellFormed (snd s1)) by (apply wellFormed_schedule; exact Hw0).
  pose proof (schedule_cancel Timeout loading 50 tm Hwf) as C0.
  pose proof (schedule_cancel Timeout logoOut (duration * 1000 + 50)
                (snd s0) Hw0) as C1.
  pose proof (schedule_cancel Timeout done (duration * 1000 + 750)
                (snd s1) Hw1) as C2.
  fold s0 in C0. fold s1 in C1. fold s2 in C2.
  clearbody s0 s1 s2.
  cbv [timersCleanup]. cbn [timers phase fold_left].
  assert (Hp : pending (clearTimeout (fst s2)
                          (clearTimeout (fst s1)
                             (clearTimeout (fst s0) (snd s2))))
               = pending tm).
  { unfold clearTimeout, cancel in *. cbn [pending] in *.
    rewrite (filter_swap (fun t => negb (targets Timeout (fst s2) t))
                         (fun t => negb (targets Timeout (fst s1) t))).
    rewrite (filter_swap (fun t => negb (targets Timeout (fst s2) t))
                         (fun t => negb (targets Timeout (fst s0) t))).
    rewrite C2.
    rewrite (filter_swap (fun t => negb (targets Timeout (fst s1) t))
                         (fun t => negb (targets Timeout (fst s0) t))).
    rewrite C1. exact C0. }
  split; [exact Hp|]. split; [reflexivity|]. split; [reflexivity|].
  intros Hnil fuel. apply runTimers_idle. rewrite Hp. exact Hnil.
Qed.

Lemma preloader_cleanup_restores_timers_witness :
  wellFormed (fresh (A := Phase) 0)
  /\ (let '(i1, tm1) := timersEffect false 2 mounted (fresh 0) in
      let '(i2, tm2) := timersCleanup i1 tm1 in
      pending tm2 = pending (fresh (A := Phase) 0)
      /\ timers i2 = []
      /\ phase i2 = phase mounted
      /\ (pending (fresh (A := Phase) 0) = [] ->
          forall fuel, runTimers fuel i2 tm2 = ([], i2, tm2))).
Proof.
  split; [apply wellFormed_fresh|].
  exact (preloader_cleanup_restores_timers 2 mounted (fresh 0)
           (wellFormed_fresh 0)).
Defined.

(** With nothing pending, the cleanup changes nothing but the instance's
    list of handles. *)
Lemma timersCleanup_idle (i : Instance) (tm : Timers Phase) :
  pending tm = [] ->
  timersCleanup i tm = ({| phase := phase i; timers := [] |}, tm).
Proof.
  intros Hnil. unfold timersCleanup. f_equal.
  induction (timers i) as [|h hs IH]; cbn [fold_left]; [reflexivity|].
  replace (clearTimeout h tm) with tm; [exact IH|].
  destruct tm as [c n p]. cbn [pending] in Hnil. subst p. reflexivity.
Qed.

(** X2: re-running the effect once the timeouts of the previous
    run are gone (a change of [duration], say) replays the whole sequence
    from whatever phase the instance is in: the phases entered are again
    [loading], [logoOut], [done].  From [done] the phase therefore steps
    back to [loading] and the preloader shows again. *)
Theorem preloader_rerun_replays
    (duration : Q) (i : Instance) (tm : Timers Phase) (fuel : nat) :
  0 <= duration -> (3 <= fuel)%nat -> pending tm = [] ->
  let '(i1, tm1) := timersRerun false duration i tm in
  let '(trace, i', tm') := runTimers fuel i1 tm1 in
  map snd trace = [loading; logoOut; done]
  /\ phase i' = done
  /\ pending tm' = []
  /\ (phase i = done ->
      ~ neverBackward (phase i) (map snd trace)
      /\ exists view, option_map render (hd_error (map snd trace))
                      = Some (Some view)).
Proof.
  intros Hd Hf Hnil.
  unfold timersRerun. rewrite (timersCleanup_idle i tm Hnil).
  destruct fuel as [|[|[|fuel]]]; try lia. clear Hf.
  destruct tm as [now n p]. cbn [pending] in Hnil. subst p.
  assert (H1 : 0 <= duration * 1000 + 50) by lra.
  assert (H2 : 0 <= duration * 1000 + 750) by lra.
  assert (H0 : 0 <= 50) by lra.
  cbv [timersEffect setTimeout schedule nextHandle clock pending phase app].
  rewrite !clampDelay_nonneg by assumption.
  set (a := now + 50).
  set (b := now + (duration * 1000 + 50)).
  set (c := now + (duration * 1000 + 750)).
  assert (Hab : a <= b) by (subst a b; lra).
  assert (Hbc : b <= c) by (subst b c; lra).
  cbn [runTimers].
  rewrite fire_head;
    [ | discriminate
      | repeat constructor; cbn [due]; assumption || lra
      | repeat constructor; cbn [handle]; lia ].
  rewrite fire_head;
    [ | discriminate
      | repeat constructor; cbn [due]; assumption
      | repeat constructor; cbn [handle]; lia ].
  rewrite fire_head; [ | discriminate | constructor | constructor ].
  cbn [callback].
  rewrite runTimers_idle by reflexivity.
  cbn [map fst snd setPhase phase neverBackward rank hd_error option_map].
  split; [reflexivity|]. split; [reflexivity|]. split; [reflexivity|].
  intros Hdone. rewrite Hdone. cbn [rank]. split.
  - intros [Hle _]. lia.
  - eexists. reflexivity.
Qed.

Lemma preloader_rerun_replays_witness :
  let shown := {| phase := done; timers := [1; 2; 3]%nat |} in
  let tm := {| clock := 2750; nextHandle := 4; pending := [] |} in
  (0 <= 5 /\ (3 <= 3)%nat /\ pending tm = [])
  /\ (let '(i1, tm1) := timersRerun false 5 shown tm in
      let '(trace, i', tm') := runTimers 3 i1 tm1 in
      map snd trace = [loading; logoOut; done]
      /\ phase i' = done
      /\ pending tm' = []
      /\ (phase shown = done ->
          ~ neverBackward (phase shown) (map snd trace)
          /\ exists view, option_map render (hd_error (map snd trace))
                          = Some (Some view))).
Proof.
  assert (Hd : 0 <= 5) by (unfold Qle; simpl; lia).
  cbv zeta. split; [split; [exact Hd | split; [apply le_n | reflexivity]]|].
  exact (preloader_rerun_replays 5
           {| phase := done; timers := [1; 2; 3]%nat |}
           {| clock := 2750; nextHandle := 4; pending := [] |} 3
           Hd (le_n 3) eq_refl).
Defined.

End PreloaderLifecycleFacts.

(** ** Minimal video player: seeking, progress, event runs *)

Module VideoSeekFacts.
Import Browser BrowserFacts TimerTableFacts VideoPlayer.
Local Open Scope Q_scope.

Lemma Qeq_bool_false (a b : Q) : ~ a == b -> Qeq_bool a b = false.
Proof.
  intros H. destruct (Qeq_bool a b) eqn:E; [|reflexivity].
  apply Qeq_bool_iff in E. contradiction.
Qed.

Lemma Qle_bool_false (a b : Q) : b < a -> Qle_bool a b = false.
Proof.
  intros H. destruct (Qle_bool a b) eqn:E; [|reflexivity].
  apply Qle_bool_iff in E. lra.
Qed.

(** X3: a click inside the progress bar seeks inside the video:
    with a known duration and a bar of positive width, a click at
    [clientX] between the bar's left and right edge yields a time between
    0 and the duration, 0 at the left edge and the duration at the right
    edge. *)
Theorem progress_click_seeks_within_duration
    (clientX rectLeft rectWidth : Q) (s : State) :
  0 < duration s -> 0 < rectWidth ->
  rectLeft <= clientX <= rectLeft + rectWidth ->
  exists t,
    handleProgressClick true false clientX rectLeft rectWidth s = Some t
    /\ 0 <= t <= duration s
    /\ (clientX == rectLeft -> t == 0)
    /\ (clientX == rectLeft + rectWidth -> t == duration s).
Proof.
  intros Hd Hw [Hlo Hhi]. unfold handleProgressClick. cbn [negb orb].
  rewrite Qeq_bool_false by lra.
  eexists. split; [reflexivity|].
  set (f := (clientX - rectLeft) / rectWidth).
  assert (Hf0 : 0 <= f).
  { unfold f. apply Qle_shift_div_l; [exact Hw | lra]. }
  assert (Hf1 : f <= 1).
  { unfold f. apply Qle_shift_div_r; [exact Hw | lra]. }
  repeat split.
  - nra.
  - nra.
  - intros E. unfold f. rewrite E. field. lra.
  - intros E. unfold f. rewrite E. field. lra.
Qed.

Lemma progress_click_seeks_within_duration_witness :
  let s := setDuration 200 (initial false true) in
  (0 < duration s /\ 0 < 400 /\ 100 <= 200 <= 100 + 400)
  /\ exists t,
       handleProgressClick true false 200 100 400 s = Some t
       /\ 0 <= t <= duration s
       /\ (200 == 100 -> t == 0)
       /\ (200 == 100 + 400 -> t == duration s).
Proof.
  assert (H1 : 0 < duration (setDuration 200 (initial false true)))
    by reflexivity.
  assert (H2 : 0 < 400) by reflexivity.
  assert (H3 : 100 <= 200 <= 100 + 400) by (split; discriminate).
  cbv zeta. split; [split; [exact H1 | split; [exact H2 | exact H3]]|].
  exact (progress_click_seeks_within_duration 200 100 400 _ H1 H2 H3).
Defined.

(** Without a duration yet ([duration] is 0 until metadata arrive), in the
    static renderer, or without a video element, a click on the bar seeks
    nowhere. *)
Lemma progress_click_guarded (clientX rectLeft rectWidth : Q) (s : State)
    (hasVideo isStatic : bool) :
  hasVideo = false \/ isStatic = true \/ duration s == 0 ->
  handleProgressClick hasVideo isStatic clientX rectLeft rectWidth s = None.
Proof.
  unfold handleProgressClick. intros [-> | [-> | Hd]].
  - destruct isStatic; reflexivity.
  - reflexivity.
  - apply Qeq_bool_iff in Hd. rewrite Hd.
    destruct isStatic, hasVideo; reflexivity.
Qed.

(** X4: the progress bar's width stays between 0 and 100 percent
    as long as the current time lies within the duration, and is 0 (no
    division by zero) while the duration is not positive. *)
Theorem progress_within_percent (s : State) :
  (0 <= currentTime s <= duration s -> 0 <= progress s <= 100)
  /\ (duration s <= 0 -> progress s = 0).
Proof.
  unfold progress. split.
  - intros [H0 H1]. destruct (Qle_bool (duration s) 0) eqn:E; cbn [negb].
    + lra.
    + assert (Hd : 0 < duration s).
      { apply Qnot_le_lt. intros H. apply Qle_bool_iff in H. congruence. }
      assert (Hf0 : 0 <= currentTime s / duration s)
        by (apply Qle_shift_div_l; [exact Hd | lra]).
      assert (Hf1 : currentTime s / duration s <= 1)
        by (apply Qle_shift_div_r; [exact Hd | lra]).
      lra.
  - intros Hd. apply Qle_bool_iff in Hd. rewrite Hd. reflexivity.
Qed.

Lemma progress_within_percent_witness :
  let s := setCurrentTime 50 (setDuration 200 (initial false true)) in
  0 <= currentTime s <= duration s /\ 0 <= progress s <= 100.
Proof.
  assert (H : 0 <= currentTime
                (setCurrentTime 50 (setDuration 200 (initial false true)))
              <= duration
                   (setCurrentTime 50 (setDuration 200 (initial false true))))
    by (split; discriminate).
  cbv zeta. split; [exact H|].
  exact (proj1 (progress_within_percent _) H).
Defined.

(** X5: seeking and the bar agree: once the video reports the
    time a click asked for, the bar is filled up to the point clicked. *)
Theorem progress_follows_click
    (clientX rectLeft rectWidth : Q) (s : State) (t : Q) :
  0 < duration s -> 0 < rectWidth ->
  handleProgressClick true false clientX rectLeft rectWidth s = Some t ->
  progress (updateTime {| video_currentTime := t;
                          video_duration := Some (duration s) |} s)
  == (clientX - rectLeft) / rectWidth * 100.
Proof.
  intros Hd Hw. unfold handleProgressClick. cbn [negb orb].
  rewrite Qeq_bool_false by lra. intros [= <-].
  unfold progress, updateTime.
  cbn [video_currentTime video_duration setDuration setCurrentTime duration
       currentTime].
  rewrite Qle_bool_false by exact Hd. cbn [negb]. field. split; lra.
Qed.

Lemma progress_follows_click_witness :
  let s := setDuration 200 (initial false true) in
  (0 < duration s /\ 0 < 400
   /\ handleProgressClick true false 200 100 400 s = Some (20000 # 400))
  /\ progress (updateTime {| video_currentTime := 20000 # 400;
                             video_duration := Some (duration s) |} s)
     == (200 - 100) / 400 * 100.
Proof.
  assert (H1 : 0 < duration (setDuration 200 (initial false true)))
    by reflexivity.
  assert (H2 : 0 < 400) by reflexivity.
  assert (H3 : handleProgressClick true false 200 100 400
                 (setDuration 200 (initial false true)) = Some (20000 # 400))
    by (vm_compute; reflexivity).
  cbv zeta. split; [split; [exact H1 | split; [exact H2 | exact H3]]|].
  exact (progress_follows_click 200 100 400 _ (20000 # 400) H1 H2 H3).
Defined.

End VideoSeekFacts.

(** ** Minimal video player: invariants of a run, autoplay delay *)

Module VideoRunFacts.
Import Browser BrowserFacts TimerTableFacts VideoPlayer.
Local Open Scope Q_scope.

(** What every reachable state satisfies. *)
Lemma react_keeps_play_state (hasVideo isStatic : bool) (i : Input)
    (s : State) :
  (isPlaying s = true -> showPlayButton s = false /\ hasPlayedOnce s = true) ->
  isPlaying (react hasVideo isStatic i s) = true ->
  showPlayButton (react hasVideo isStatic i s) = false
  /\ hasPlayedOnce (react hasVideo isStatic i s) = true.
Proof.
  intros Hinv.
  destruct i as [e video| | |result|cb result]; cbn [react].
  - unfold onMediaEvent.
    destruct (negb hasVideo || isStatic); cbn [fst]; [exact Hinv|].
    destruct e; cbn [fst]; try exact Hinv;
      cbn; try discriminate; auto.
  - cbn. exact Hinv.
  - cbn. exact Hinv.
  - unfold togglePlay.
    destruct isStatic; cbn [fst]; [exact Hinv|].
    destruct (negb hasVideo); cbn [fst]; [exact Hinv|].
    destruct (isPlaying s) eqn:Hp; cbn [fst]; [rewrite Hp; exact Hinv|].
    destruct result; cbn; rewrite Hp; discriminate.
  - destruct cb, result; cbn; exact Hinv.
Qed.

Lemma react_keeps_hasPlayedOnce (hasVideo isStatic : bool) (i : Input)
    (s : State) :
  hasPlayedOnce s = true -> hasPlayedOnce (react hasVideo isStatic i s) = true.
Proof.
  intros H.
  destruct i as [e video| | |result|cb result]; cbn [react].
  - unfold onMediaEvent.
    destruct (negb hasVideo || isStatic); cbn [fst]; [exact H|].
    destruct e; cbn; auto.
  - exact H.
  - exact H.
  - unfold togglePlay.
    destruct isStatic, (negb hasVideo), (isPlaying s), result; cbn; exact H.
  - destruct cb, result; cbn; exact H.
Qed.

(** X6: whatever events, clicks and timeouts reach a player, in
    whatever order: while [isPlaying] holds the centre play button is
    hidden and [hasPlayedOnce] holds; and [hasPlayedOnce], once set, is
    never reset. *)
Theorem run_keeps_play_state
    (hasVideo isStatic autoPlay showPoster : bool) (inputs : list Input) :
  let s := run hasVideo isStatic inputs (initial autoPlay showPoster) in
  (isPlaying s = true -> showPlayButton s = false /\ hasPlayedOnce s = true)
  /\ (forall more,
         hasPlayedOnce s = true ->
         hasPlayedOnce (run hasVideo isStatic more s) = true).
Proof.
  cbv zeta. split.
  - unfold run.
    assert (Hgen : forall s0,
               (isPlaying s0 = true ->
                showPlayButton s0 = false /\ hasPlayedOnce s0 = true) ->
               isPlaying
                 (fold_left (fun s i => react hasVideo isStatic i s) inputs s0)
               = true ->
               showPlayButton
                 (fold_left (fun s i => react hasVideo isStatic i s) inputs s0)
               = false
               /\ hasPlayedOnce
                    (fold_left (fun s i => react hasVideo isStatic i s)
                       inputs s0) = true).
    { induction inputs as [|i rest IH]; intros s0 H0; cbn [fold_left].
      - exact H0.
      - apply IH. apply react_keeps_play_state. exact H0. }
    apply Hgen. cbn [initial isPlaying showPlayButton hasPlayedOnce].
    intros ->. split; reflexivity.
  - intros more. unfold run.
    generalize (fold_left (fun s i => react hasVideo isStatic i s) inputs
                  (initial autoPlay showPoster)) as s.
    induction more as [|i rest IH]; intros s Hs; cbn [fold_left].
    + exact Hs.
    + apply IH. apply react_keeps_hasPlayedOnce. exact Hs.
Qed.

Lemma run_keeps_play_state_witness :
  let inputs :=
    [media play {| video_currentTime := 0; video_duration := Some 200 |};
     mouseEnter; clickPlay Resolved] in
  let s := run true false inputs (initial false true) in
  (isPlaying s = true -> showPlayButton s = false /\ hasPlayedOnce s = true)
  /\ (forall more,
         hasPlayedOnce s = true ->
         hasPlayedOnce (run true false more s) = true).
Proof.
  exact (run_keeps_play_state true false false true
           [media play {| video_currentTime := 0;
                          video_duration := Some 200 |};
            mouseEnter; clickPlay Resolved]).
Defined.

(** *** Autoplay delay *)

Lemma live_scheduled {A : Type} (k : TimerKind) (cb : A) (d : Q)
    (tm : Timers A) :
  live (fst (schedule k cb d tm)) k (snd (schedule k cb d tm)) = true.
Proof.
  unfold live. cbn [schedule fst snd pending].
  rewrite existsb_app. cbn [existsb]. unfold targets at 2. cbn [handle].
  rewrite Nat.eqb_refl, sameTable_own. cbn [andb orb].
  apply orb_true_r.
Qed.

(** X7: with a positive [autoPlayDelay] the effect does not touch
    the video at mount: it only arms one timeout, which its cleanup
    cancels, leaving the pending callbacks as they were before the effect.
    Without a delay it calls [play()] at once and arms nothing. *)
Theorem autoplay_delay_armed_and_cancelled
    (delay : Q) (result : PlayResult) (s : State) (tm : Timers Callback) :
  wellFormed tm ->
  (0 < delay ->
   let '(s1, tm1, commands, timer) :=
     autoPlayEffect true false true delay result s tm in
   s1 = s /\ commands = []
   /\ (exists h, timer = Some h /\ live h Timeout tm1 = true)
   /\ map callback (pending tm1)
      = map callback (pending tm) ++ [DelayedAutoPlay]
   /\ pending (autoPlayCleanup timer tm1) = pending tm)
  /\ (delay <= 0 ->
      autoPlayEffect true false true delay result s tm
      = (playOrPoster result s, tm, [Play], None)).
Proof.
  intros Hwf. split.
  - intros Hd. unfold autoPlayEffect. cbn [negb orb].
    assert (E : Qle_bool delay 0 = false).
    { destruct (Qle_bool delay 0) eqn:E; [|reflexivity].
      apply Qle_bool_iff in E. lra. }
    rewrite E. cbn [negb]. unfold setTimeout.
    pose proof (live_scheduled Timeout DelayedAutoPlay delay tm) as Hlive.
    pose proof (schedule_cancel Timeout DelayedAutoPlay delay tm Hwf) as Hc.
    assert (Hh : fst (schedule Timeout DelayedAutoPlay delay tm)
                 = nextHandle tm) by reflexivity.
    assert (Hcb : map callback
                    (pending (snd (schedule Timeout DelayedAutoPlay delay tm)))
                  = map callback (pending tm) ++ [DelayedAutoPlay]).
    { cbn [schedule snd pending]. rewrite map_app. reflexivity. }
    destruct (schedule Timeout DelayedAutoPlay delay tm) as [h tm1].
    cbn [fst snd] in *.
    split; [reflexivity|]. split; [reflexivity|].
    split; [exists h; split; [reflexivity | exact Hlive]|].
    split; [exact Hcb|].
    unfold autoPlayCleanup. destruct Hwf as [Hpos _].
    destruct h as [|h']; [lia|]. exact Hc.
  - intros Hd. unfold autoPlayEffect. cbn [negb orb].
    apply Qle_bool_iff in Hd. rewrite Hd. reflexivity.
Qed.

Lemma autoplay_delay_armed_and_cancelled_witness :
  let s := initial true true in
  (wellFormed (fresh (A := Callback) 0) /\ 0 < 1500)
  /\ (let '(s1, tm1, commands, timer) :=
        autoPlayEffect true false true 1500 Resolved s (fresh 0) in
      s1 = s /\ commands = []
      /\ (exists h, timer = Some h /\ live h Timeout tm1 = true)
      /\ map callback (pending tm1)
         = map callback (pending (fresh (A := Callback) 0))
           ++ [DelayedAutoPlay]
      /\ pending (autoPlayCleanup timer tm1)
         = pending (fresh (A := Callback) 0)).
Proof.
  assert (Hd : 0 < 1500) by reflexivity.
  cbv zeta. split; [split; [apply wellFormed_fresh | exact Hd]|].
  exact (proj1 (autoplay_delay_armed_and_cancelled 1500 Resolved
                  (initial true true) (fresh 0) (wellFormed_fresh 0)) Hd).
Defined.

End VideoRunFacts.

(** ** Infinite gallery: the easing loop *)

Module GalleryEasingFacts.
Import Browser BrowserFacts TimerTableFacts Gallery GalleryFacts.
Local Open Scope R_scope.

(** *** One easing step *)

Section Easing.
Variables rate snap : R.
Hypothesis rate_range : 0 < rate <= 1.
Hypothesis snap_pos : 0 < snap.

(** A step never moves away from the target and never overshoots it. *)
Lemma easeTowards_contracts (prev target : R) :
  Rabs (easeTowards rate snap prev target - target)
  <= (1 - rate) * Rabs (prev - target).
Proof.
  unfold easeTowards.
  destruct (Rlt_b (Rabs (prev + (target - prev) * rate - target)) snap).
  - replace (target - target) with 0 by ring. rewrite Rabs_R0.
    apply Rmult_le_pos; [lra | apply Rabs_pos].
  - replace (prev + (target - prev) * rate - target)
      with ((1 - rate) * (prev - target)) by ring.
    rewrite Rabs_mult, (Rabs_right (1 - rate)) by lra. lra.
Qed.

(** On the target, a step stays there. *)
Lemma easeTowards_fixed (target : R) :
  easeTowards rate snap target target = target.
Proof.
  unfold easeTowards.
  destruct (Rlt_b (Rabs (target + (target - target) * rate - target)) snap);
    [reflexivity | ring].
Qed.

Lemma iter_easeTowards_fixed (target : R) (n : nat) :
  Nat.iter n (fun p => easeTowards rate snap p target) target = target.
Proof.
  induction n as [|n IH]; [reflexivity|].
  rewrite Nat.iter_succ, IH. apply easeTowards_fixed.
Qed.

Lemma easeTowards_close (prev target : R) (k : nat) :
  (1 - rate) ^ S k * Rabs (prev - target) < snap ->
  Nat.iter (S k) (fun p => easeTowards rate snap p target) prev = target.
Proof.
  revert prev. induction k as [|k IH]; intros prev Hclose.
  - change (easeTowards rate snap prev target = target).
    unfold easeTowards.
    rewrite Rlt_b_true; [reflexivity|].
    replace (prev + (target - prev) * rate - target)
      with ((1 - rate) * (prev - target)) by ring.
    rewrite Rabs_mult, (Rabs_right (1 - rate)) by lra.
    cbn [pow] in Hclose. lra.
  - rewrite Nat.iter_succ_r.
    unfold easeTowards at 2.
    destruct (Rlt_b (Rabs (prev + (target - prev) * rate - target)) snap).
    + apply iter_easeTowards_fixed.
    + apply IH.
      replace (prev + (target - prev) * rate - target)
        with ((1 - rate) * (prev - target)) by ring.
      rewrite Rabs_mult, (Rabs_right (1 - rate)) by lra.
      change ((1 - rate) ^ S (S k)) with ((1 - rate) * (1 - rate) ^ S k)
        in Hclose.
      lra.
Qed.

(** Repeated steps reach the target exactly, after finitely many of them,
    and stay on it. *)
Lemma easeTowards_settles (prev target : R) :
  exists N, forall n, (N <= n)%nat ->
    Nat.iter n (fun p => easeTowards rate snap p target) prev = target.
Proof.
  destruct (Req_dec_T prev target) as [->|Hne].
  - exists 0%nat. intros n _. apply iter_easeTowards_fixed.
  - assert (Hd : 0 < Rabs (prev - target)) by (apply Rabs_pos_lt; lra).
    assert (Hq : Rabs (1 - rate) < 1) by (rewrite Rabs_right; lra).
    destruct (pow_lt_1_zero (1 - rate) Hq (snap / Rabs (prev - target)))
      as [N HN].
    { apply Rdiv_lt_0_compat; assumption. }
    exists (S N). intros n Hn.
    destruct n as [|k]; [lia|].
    replace (S k) with ((k - N) + S N)%nat by lia.
    rewrite Nat.iter_add.
    rewrite easeTowards_close; [apply iter_easeTowards_fixed|].
    specialize (HN (S N) ltac:(lia)).
    rewrite Rabs_right in HN.
    + apply (Rmult_lt_compat_r (Rabs (prev - target))) in HN; [|exact Hd].
      unfold Rdiv in HN. rewrite Rmult_assoc, Rinv_l, Rmult_1_r in HN by lra.
      exact HN.
    + apply Rle_ge. apply pow_le. lra.
Qed.

End Easing.

(** *** What one tick does to the eased cells *)

Ltac tick_cases g pr Edrag :=
  unfold tick, easeSize, easeOffset, inertiaUpdate, easeParallax,
    parallaxTarget;
  cbn -[Rlt_b Rabs];
  destruct (draggingRef (refs g)) eqn:Edrag; cbn -[Rlt_b Rabs];
  rewrite ?Edrag; cbn -[Rlt_b Rabs];
  destruct (inertiaEnabled pr); cbn -[Rlt_b Rabs];
  destruct (inertiaActiveRef (refs g)); cbn -[Rlt_b Rabs];
  destruct (parallaxEnabled pr); cbn -[Rlt_b Rabs];
  destruct (parallaxWhileDragging pr);
  cbn -[Rlt_b Rabs]; rewrite ?Edrag; cbn -[Rlt_b Rabs].

Lemma tick_eases pr now u g tm :
  let g' := fst (tick pr now u g tm) in
  currentCellSize (hooks g')
  = easeTowards 0.15 0.05 (currentCellSize (hooks g))
      (targetCellSize (hooks g))
  /\ offset (hooks g')
     = (if draggingRef (refs g) then offset (hooks g)
        else {| x := easeTowards 0.15 0.1 (x (offset (hooks g)))
                       (x (targetOffsetRef (refs g)));
                y := easeTowards 0.15 0.1 (y (offset (hooks g)))
                       (y (targetOffsetRef (refs g))) |})
  /\ mouseOffset (hooks g')
     = {| x := easeTowards (parallaxEase pr) 0.1 (x (mouseOffset (hooks g)))
                 (x (parallaxTarget pr g));
          y := easeTowards (parallaxEase pr) 0.1 (y (mouseOffset (hooks g)))
                 (y (parallaxTarget pr g)) |}.
Proof.
  tick_cases g pr Edrag;
    unfold easeTowards; rewrite ?Rminus_0_r;
    repeat split; reflexivity.
Qed.

(** A tick leaves the targets of the easing alone. *)
Lemma tick_keeps_targets pr now u g tm :
  let g' := fst (tick pr now u g tm) in
  targetCellSize (hooks g') = targetCellSize (hooks g)
  /\ targetOffset (hooks g') = targetOffset (hooks g)
  /\ targetMouseOffset (hooks g') = targetMouseOffset (hooks g)
  /\ isDragging (hooks g') = isDragging (hooks g).
Proof.
  tick_cases g pr Edrag; repeat split; reflexivity.
Qed.

Lemma syncRefs_rendered g : rendered (syncRefs g).
Proof. repeat split. Qed.

(** *** The frame loop *)

Lemma rafEffect_onlyFrame u g tm :
  pending tm = [] ->
  onlyFramePending (fst (rafEffect u g tm)) (snd (rafEffect u g tm)).
Proof.
  intros Hp. unfold rafEffect, requestAnimationFrame, schedule.
  cbn [fst snd]. unfold onlyFramePending. cbn [pending raf].
  rewrite Hp. eexists _, _. reflexivity.
Qed.

(** With only the frame pending, the browser's next callback is the tick,
    and the tick leaves only the next frame pending. *)
Lemma runFrames_cons pr u rect now later g tm :
  onlyFramePending g tm ->
  exists tm0,
    runFrames pr u rect (now :: later) g tm
    = runFrames pr u rect later
        (syncRefs (fst (tick pr now u g tm0))) (snd (tick pr now u g tm0))
    /\ onlyFramePending (syncRefs (fst (tick pr now u g tm0)))
         (snd (tick pr now u g tm0)).
Proof.
  intros [d [p Hp]].
  exists {| clock := d; nextHandle := nextHandle tm; pending := [] |}.
  split.
  - cbn [runFrames]. unfold fire. rewrite Hp.
    cbn [earliest kind handle due callback filter].
    unfold targets. cbn [handle kind sameTable].
    rewrite Nat.eqb_refl. cbn [andb negb runCallback].
    destruct (tick pr now u g _) as [g' tm'] eqn:E.
    cbn [fst snd]. reflexivity.
  - unfold tick, requestAnimationFrame, schedule, onlyFramePending.
    cbn [fst snd pending raf app nextHandle syncRefs].
    eexists _, _. reflexivity.
Qed.

Lemma unmount_onlyFrame g tm :
  onlyFramePending g tm -> pending (unmount g tm) = [].
Proof.
  intros [d [p Hp]].
  unfold unmount, rafCleanup, cancelAnimationFrame, cancel.
  cbn [pending]. rewrite Hp.
  cbn [filter]. unfold targets. cbn [handle kind sameTable].
  rewrite Nat.eqb_refl. reflexivity.
Qed.

Lemma runFrames_onlyFrame pr u rect nows : forall g tm,
  onlyFramePending g tm ->
  onlyFramePending (fst (runFrames pr u rect nows g tm))
    (snd (runFrames pr u rect nows g tm)).
Proof.
  induction nows as [|now later IH]; intros g tm Hp; [exact Hp|].
  destruct (runFrames_cons pr u rect now later g tm Hp) as [tm0 [-> Hp']].
  apply IH. exact Hp'.
Qed.

(** X8: however many frames have run, exactly one animation frame
    is pending, it is the one [raf] holds, and unmounting cancels it. *)
Theorem frame_loop_keeps_one_request pr u rect nows g tm :
  onlyFramePending g tm ->
  onlyFramePending (fst (runFrames pr u rect nows g tm))
    (snd (runFrames pr u rect nows g tm))
  /\ pending (unmount (fst (runFrames pr u rect nows g tm))
               (snd (runFrames pr u rect nows g tm))) = [].
Proof.
  intros Hp. split.
  - apply runFrames_onlyFrame. exact Hp.
  - apply unmount_onlyFrame. apply runFrames_onlyFrame. exact Hp.
Qed.

(** The eased cells after the frames, as iterated easing steps. *)
Lemma runFrames_eased pr u rect nows : forall g tm,
  onlyFramePending g tm -> rendered g ->
  let g' := fst (runFrames pr u rect nows g tm) in
  let n := List.length nows in
  currentCellSize (hooks g')
  = Nat.iter n (fun p => easeTowards 0.15 0.05 p (targetCellSize (hooks g)))
      (currentCellSize (hooks g))
  /\ offset (hooks g')
     = (if isDragging (hooks g) then offset (hooks g)
        else {| x := Nat.iter n
                       (fun p => easeTowards 0.15 0.1 p
                                   (x (targetOffset (hooks g))))
                       (x (offset (hooks g)));
                y := Nat.iter n
                       (fun p => easeTowards 0.15 0.1 p
                                   (y (targetOffset (hooks g))))
                       (y (offset (hooks g))) |})
  /\ mouseOffset (hooks g')
     = {| x := Nat.iter n
                 (fun p => easeTowards (parallaxEase pr) 0.1 p
                             (x (parallaxTarget pr g)))
                 (x (mouseOffset (hooks g)));
          y := Nat.iter n
                 (fun p => easeTowards (parallaxEase pr) 0.1 p
                             (y (parallaxTarget pr g)))
                 (y (mouseOffset (hooks g))) |}.
Proof.
  induction nows as [|now later IH]; intros g tm Hp Hr.
  - cbn [runFrames fst List.length Nat.iter nat_rect].
    repeat split.
    + destruct (isDragging (hooks g)), (offset (hooks g)); reflexivity.
    + destruct (mouseOffset (hooks g)); reflexivity.
  - destruct (runFrames_cons pr u rect now later g tm Hp) as [tm0 [-> Hp']].
    destruct (tick_eases pr now u g tm0) as [Es [Eo Em]].
    destruct (tick_keeps_targets pr now u g tm0) as [Ts [To [Tm Td]]].
    destruct Hr as [Ro [Rm Rd]].
    specialize (IH _ _ Hp' (syncRefs_rendered _)).
    cbv zeta in IH. cbv zeta.
    set (g1 := fst (tick pr now u g tm0)) in *.
    assert (Ept : parallaxTarget pr (syncRefs g1) = parallaxTarget pr g).
    { unfold parallaxTarget. cbn [syncRefs refs draggingRef
        targetMouseOffsetRef]. rewrite Tm, Td, Rm, Rd. reflexivity. }
    rewrite Ept in IH.
    change (hooks (syncRefs g1)) with (hooks g1) in IH.
    rewrite Ts, To, Td, Es, Eo, Em in IH.
    destruct IH as [Is [Io Im]].
    cbn [List.length]. rewrite !Nat.iter_succ_r.
    rewrite Is, Io, Im. rewrite <- Ro, Rd.
    repeat split.
    destruct (isDragging (hooks g)); reflexivity.
Qed.

Lemma frame_loop_keeps_one_request_witness :
  let g := fst (rafEffect 16 (mounted defaultProps 0) (fresh 0)) in
  let tm := snd (rafEffect 16 (mounted defaultProps 0) (fresh 0)) in
  onlyFramePending g tm
  /\ onlyFramePending (fst (runFrames defaultProps 16 None [16; 32] g tm))
       (snd (runFrames defaultProps 16 None [16; 32] g tm))
  /\ pending (unmount (fst (runFrames defaultProps 16 None [16; 32] g tm))
                (snd (runFrames defaultProps 16 None [16; 32] g tm))) = [].
Proof.
  cbv zeta.
  assert (H : onlyFramePending
                (fst (rafEffect 16 (mounted defaultProps 0) (fresh 0)))
                (snd (rafEffect 16 (mounted defaultProps 0) (fresh 0))))
    by (apply rafEffect_onlyFrame; reflexivity).
  split; [exact H|].
  exact (frame_loop_keeps_one_request defaultProps 16 None [16; 32] _ _ H).
Defined.

(** X9: left alone, the frame loop brings the view to rest in
    finitely many frames.  From some frame on the cell size is exactly its
    target, the offset is exactly the target offset (while dragging it is
    the one the drag set) and the parallax is exactly the pointer's target,
    or zero where the parallax does not apply. *)
Theorem frame_loop_settles pr u rect g tm :
  onlyFramePending g tm -> rendered g -> 0 < parallaxEase pr <= 1 ->
  exists N, forall nows, (N <= List.length nows)%nat ->
    let g' := fst (runFrames pr u rect nows g tm) in
    currentCellSize (hooks g') = targetCellSize (hooks g)
    /\ offset (hooks g')
       = (if isDragging (hooks g) then offset (hooks g)
          else targetOffset (hooks g))
    /\ mouseOffset (hooks g') = parallaxTarget pr g.
Proof.
  intros Hp Hr He.
  assert (H15 : 0 < 0.15 <= 1) by lra.
  assert (H05 : 0 < 0.05) by lra.
  assert (H01 : 0 < 0.1) by lra.
  destruct (easeTowards_settles 0.15 0.05 H15 H05
              (currentCellSize (hooks g)) (targetCellSize (hooks g)))
    as [Ns Hs].
  destruct (easeTowards_settles 0.15 0.1 H15 H01
              (x (offset (hooks g))) (x (targetOffset (hooks g))))
    as [Nx Hx].
  destruct (easeTowards_settles 0.15 0.1 H15 H01
              (y (offset (hooks g))) (y (targetOffset (hooks g))))
    as [Ny Hy].
  destruct (easeTowards_settles (parallaxEase pr) 0.1 He H01
              (x (mouseOffset (hooks g))) (x (parallaxTarget pr g)))
    as [Mx Hmx].
  destruct (easeTowards_settles (parallaxEase pr) 0.1 He H01
              (y (mouseOffset (hooks g))) (y (parallaxTarget pr g)))
    as [My Hmy].
  exists (Ns + Nx + Ny + Mx + My)%nat. intros nows Hn.
  destruct (runFrames_eased pr u rect nows g tm Hp Hr) as [Es [Eo Em]].
  cbv zeta. rewrite Es, Eo, Em.
  rewrite Hs, Hx, Hy, Hmx, Hmy by lia.
  repeat split.
  - destruct (isDragging (hooks g)); [reflexivity|].
    destruct (targetOffset (hooks g)); reflexivity.
  - destruct (parallaxTarget pr g); reflexivity.
Qed.

Lemma frame_loop_settles_witness :
  let g0 := syncRefs (hook (setTargetCellSize 140) (mounted defaultProps 0)) in
  let g := fst (rafEffect 16 g0 (fresh 0)) in
  let tm := snd (rafEffect 16 g0 (fresh 0)) in
  (onlyFramePending g tm /\ rendered g
   /\ 0 < parallaxEase defaultProps <= 1)
  /\ exists N, forall nows, (N <= List.length nows)%nat ->
       let g' := fst (runFrames defaultProps 16 None nows g tm) in
       currentCellSize (hooks g') = targetCellSize (hooks g)
       /\ offset (hooks g')
          = (if isDragging (hooks g) then offset (hooks g)
             else targetOffset (hooks g))
       /\ mouseOffset (hooks g') = parallaxTarget defaultProps g.
Proof.
  cbv zeta.
  set (g0 := syncRefs (hook (setTargetCellSize 140) (mounted defaultProps 0))).
  assert (Hp : onlyFramePending (fst (rafEffect 16 g0 (fresh 0)))
                 (snd (rafEffect 16 g0 (fresh 0))))
    by (apply rafEffect_onlyFrame; reflexivity).
  assert (Hr : rendered (fst (rafEffect 16 g0 (fresh 0))))
    by (repeat split).
  assert (He : 0 < parallaxEase defaultProps <= 1) by (cbn; lra).
  split; [split; [exact Hp | split; [exact Hr | exact He]]|].
  exact (frame_loop_settles defaultProps 16 None _ _ Hp Hr He).
Defined.

End GalleryEasingFacts.

(** ** Infinite gallery: pointer gestures *)

Module GalleryPointerFacts.
Import Browser BrowserFacts TimerTableFacts Gallery GalleryFacts.
Local Open Scope R_scope.

Ltac split_ifs :=
  repeat (cbn -[Rlt_b Rle_b Rneq_b Rabs Rmax Rmin Math_hypot clamp];
          match goal with
          | |- context [if ?b then _ else _] => destruct b eqn:?
          | |- context [match ?r with Some _ => _ | None => _ end] =>
              destruct r eqn:?
          end);
  cbn -[Rlt_b Rle_b Rneq_b Rabs Rmax Rmin Math_hypot clamp].

(** *** Velocity tracking *)

Lemma clamp_range v m : 0 <= m -> - m <= clamp v (- m) m <= m.
Proof.
  intros Hm. unfold clamp, Rmax, Rmin.
  destruct (Rle_dec m v); destruct (Rle_dec (- m) _); lra.
Qed.

Lemma Rabs_bound a b : Rabs a <= b -> - b <= a <= b.
Proof. unfold Rabs. destruct (Rcase_abs a); lra. Qed.

Lemma handlePointerMove_velocity pr e now rect g :
  velocityRef (refs (handlePointerMove pr e now rect g))
  = if isPressingRef (refs g) then
      let last := lastMoveRef (refs g) in
      let dt := Rmax 0.001 ((now - lt last) / 1000) in
      {| x := clamp ((clientX e - lx last) / dt * throwVelocityScale pr)
                (- throwMaxSpeed pr) (throwMaxSpeed pr) * 0.6
              + x (velocityRef (refs g)) * 0.4;
         y := clamp ((clientY e - ly last) / dt * throwVelocityScale pr)
                (- throwMaxSpeed pr) (throwMaxSpeed pr) * 0.6
              + y (velocityRef (refs g)) * 0.4 |}
    else velocityRef (refs g).
Proof.
  unfold handlePointerMove. split_ifs; reflexivity.
Qed.

Lemma handlePointerMove_keeps_bound pr e now rect g :
  0 <= throwMaxSpeed pr ->
  Rabs (x (velocityRef (refs g))) <= throwMaxSpeed pr ->
  Rabs (y (velocityRef (refs g))) <= throwMaxSpeed pr ->
  Rabs (x (velocityRef (refs (handlePointerMove pr e now rect g))))
  <= throwMaxSpeed pr
  /\ Rabs (y (velocityRef (refs (handlePointerMove pr e now rect g))))
     <= throwMaxSpeed pr.
Proof.
  intros Hm Hx Hy. rewrite handlePointerMove_velocity.
  destruct (isPressingRef (refs g)); [|split; assumption].
  cbv zeta. cbn [x y].
  set (last := lastMoveRef (refs g)).
  set (dt := Rmax 0.001 ((now - lt last) / 1000)).
  pose proof (clamp_range ((clientX e - lx last) / dt * throwVelocityScale pr)
                _ Hm) as Cx.
  pose proof (clamp_range ((clientY e - ly last) / dt * throwVelocityScale pr)
                _ Hm) as Cy.
  apply Rabs_bound in Hx. apply Rabs_bound in Hy.
  split; apply Rabs_le; lra.
Qed.

Lemma pointerMoves_keeps_bound pr rect moves : forall g,
  0 <= throwMaxSpeed pr ->
  Rabs (x (velocityRef (refs g))) <= throwMaxSpeed pr ->
  Rabs (y (velocityRef (refs g))) <= throwMaxSpeed pr ->
  Rabs (x (velocityRef (refs (pointerMoves pr rect moves g))))
  <= throwMaxSpeed pr
  /\ Rabs (y (velocityRef (refs (pointerMoves pr rect moves g))))
     <= throwMaxSpeed pr.
Proof.
  induction moves as [|m moves IH]; intros g Hm Hx Hy; [split; assumption|].
  cbn [pointerMoves fold_left]. apply IH; [exact Hm| |];
    cbn [syncRefs refs velocityRef];
    apply (handlePointerMove_keeps_bound pr (fst m) (snd m) rect g Hm Hx Hy).
Qed.

Lemma handlePointerDown_velocity pr e now g tm :
  velocityRef (refs (fst (handlePointerDown pr e now g tm))) = origin.
Proof.
  unfold handlePointerDown. split_ifs; reflexivity.
Qed.

(** X10: from the press on, through any moves, each component of the
    tracked velocity stays within [throwMaxSpeed]. *)
Theorem gesture_velocity_bounded pr e now rect moves g tm :
  0 <= throwMaxSpeed pr ->
  let pressed := syncRefs (fst (handlePointerDown pr e now g tm)) in
  let v := velocityRef (refs (pointerMoves pr rect moves pressed)) in
  Rabs (x v) <= throwMaxSpeed pr /\ Rabs (y v) <= throwMaxSpeed pr.
Proof.
  intros Hm. cbv zeta.
  apply pointerMoves_keeps_bound; [exact Hm| |];
    cbn [syncRefs refs velocityRef];
    rewrite handlePointerDown_velocity; cbn [origin x y];
    rewrite Rabs_R0; exact Hm.
Qed.

Lemma gesture_velocity_bounded_witness :
  let e := {| pointerId := 1; clientX := 10; clientY := 10 |} in
  let far := {| pointerId := 1; clientX := 900; clientY := 10 |} in
  let pressed :=
    syncRefs (fst (handlePointerDown defaultProps e 5
                     (mounted defaultProps 0) (fresh 0))) in
  let v :=
    velocityRef (refs (pointerMoves defaultProps None [(far, 6)] pressed)) in
  0 <= throwMaxSpeed defaultProps
  /\ Rabs (x v) <= throwMaxSpeed defaultProps
  /\ Rabs (y v) <= throwMaxSpeed defaultProps.
Proof.
  assert (Hm : 0 <= throwMaxSpeed defaultProps) by (cbn; lra).
  cbv zeta. split; [exact Hm|].
  exact (gesture_velocity_bounded defaultProps
           {| pointerId := 1; clientX := 10; clientY := 10 |} 5 None
           [({| pointerId := 1; clientX := 900; clientY := 10 |}, 6)]
           (mounted defaultProps 0) (fresh 0) Hm).
Defined.

(** *** Dragging *)

(** A move that starts or continues a drag leaves the drag flags set. *)
Lemma handlePointerMove_dragging pr e now rect g :
  isPressingRef (refs g) = true ->
  draggingRef (refs g) = isDragging (hooks g) ->
  isDragging (hooks g) = true
  \/ DRAG_THRESHOLD
     < Math_hypot (clientX e - x (pressPosRef (refs g)))
         (clientY e - y (pressPosRef (refs g))) ->
  isDragging (hooks (handlePointerMove pr e now rect g)) = true
  /\ draggingRef (refs (handlePointerMove pr e now rect g)) = true.
Proof.
  intros Hpress Hsync Hfar. unfold handlePointerMove.
  assert (Hsync' := Hsync).
  destruct (isDragging (hooks g)) eqn:Edrag;
    try (destruct Hfar as [Hd|Hfar]; [discriminate Hd|];
         apply Rlt_b_true in Hfar);
    destruct rect as [rc|];
    try (destruct (parallaxEnabled pr), (parallaxWhileDragging pr));
    repeat (progress (rewrite ?Hpress, ?Hsync', ?Edrag, ?Hfar;
                      cbn -[Rlt_b Math_hypot Rmax clamp]));
    split; reflexivity.
Qed.

(** X11: while the pointer is down, a move within [DRAG_THRESHOLD]
    of the press position starts no drag and leaves the offset alone; a
    move beyond it, or any move once dragging, puts the offset and the
    target offset at the drag baseline plus the pointer's displacement
    since the press.  The baseline is the rendered offset when the drag
    starts and is kept from then on. *)
Theorem pointer_move_drags pr e now rect g :
  isPressingRef (refs g) = true ->
  draggingRef (refs g) = isDragging (hooks g) ->
  let g' := handlePointerMove pr e now rect g in
  let dx := clientX e - x (pressPosRef (refs g)) in
  let dy := clientY e - y (pressPosRef (refs g)) in
  let base :=
    if isDragging (hooks g) then startOffsetRef (refs g)
    else offsetRef (refs g) in
  (isDragging (hooks g) = false -> Math_hypot dx dy <= DRAG_THRESHOLD ->
   isDragging (hooks g') = false /\ draggingRef (refs g') = false
   /\ offset (hooks g') = offset (hooks g)
   /\ targetOffset (hooks g') = targetOffset (hooks g))
  /\ (isDragging (hooks g) = true \/ DRAG_THRESHOLD < Math_hypot dx dy ->
      isDragging (hooks g') = true /\ draggingRef (refs g') = true
      /\ startOffsetRef (refs g') = base
      /\ offset (hooks g') = {| x := x base + dx; y := y base + dy |}
      /\ targetOffset (hooks g') = offset (hooks g')).
Proof.
  intros Hpress Hsync. cbv zeta. unfold handlePointerMove.
  assert (Hsync' := Hsync).
  destruct (isDragging (hooks g)) eqn:Edrag;
    (split; [intros Hd Hnear | intros Hfar]);
    try discriminate Hd;
    try (destruct Hfar as [Hd|Hfar]; [discriminate Hd|]);
    try (apply Rlt_b_false in Hnear);
    try (apply Rlt_b_true in Hfar);
    destruct rect as [rc|];
    try (destruct (parallaxEnabled pr), (parallaxWhileDragging pr));
    repeat (progress (rewrite ?Hpress, ?Hsync', ?Edrag, ?Hnear, ?Hfar;
                      cbn -[Rlt_b Math_hypot Rmax clamp]));
    repeat split; reflexivity.
Qed.

Lemma pointer_move_drags_witness :
  let g := ref (isPressingRef_is true) (mounted defaultProps 0) in
  let e := {| pointerId := 1; clientX := 30; clientY := 40 |} in
  let g' := handlePointerMove defaultProps e 9 None g in
  let dx := clientX e - x (pressPosRef (refs g)) in
  let dy := clientY e - y (pressPosRef (refs g)) in
  let base :=
    if isDragging (hooks g) then startOffsetRef (refs g)
    else offsetRef (refs g) in
  (isPressingRef (refs g) = true
   /\ draggingRef (refs g) = isDragging (hooks g))
  /\ (isDragging (hooks g) = false -> Math_hypot dx dy <= DRAG_THRESHOLD ->
      isDragging (hooks g') = false /\ draggingRef (refs g') = false
      /\ offset (hooks g') = offset (hooks g)
      /\ targetOffset (hooks g') = targetOffset (hooks g))
  /\ (isDragging (hooks g) = true \/ DRAG_THRESHOLD < Math_hypot dx dy ->
      isDragging (hooks g') = true /\ draggingRef (refs g') = true
      /\ startOffsetRef (refs g') = base
      /\ offset (hooks g') = {| x := x base + dx; y := y base + dy |}
      /\ targetOffset (hooks g') = offset (hooks g')).
Proof.
  cbv zeta. split; [split; reflexivity|].
  exact (pointer_move_drags defaultProps
           {| pointerId := 1; clientX := 30; clientY := 40 |} 9 None
           (ref (isPressingRef_is true) (mounted defaultProps 0))
           eq_refl eq_refl).
Defined.

(** *** A click *)

Lemma hypot_origin : Math_hypot 0 0 = 0.
Proof.
  unfold Math_hypot. replace (0 * 0 + 0 * 0) with 0 by ring. apply sqrt_0.
Qed.

Lemma Rle_b_false a b : b < a -> Rle_b a b = false.
Proof.
  intros H. unfold Rle_b. destruct (Rle_dec a b); [lra | reflexivity].
Qed.

Lemma Rneq_b_false a b : Rneq_b a b = false -> a = b.
Proof.
  unfold Rneq_b. destruct (Req_dec_T a b); [trivial | discriminate].
Qed.

(** X12: a press followed by a release with no move in between
    stops a coasting view where it stands.  The offset becomes the offset
    that was on screen, the inertia is zero and inactive, so nothing is
    thrown, the zoom target is back at [cellSize], and the press-zoom
    timeout the press armed is cleared: the timers are as before. *)
Theorem click_stops_coasting pr e now rect g tm :
  wellFormed tm ->
  pressTimerRef (refs g) = None ->
  offsetRef (refs g) = offset (hooks g) ->
  0 < throwMinSpeed pr ->
  let pressed := handlePointerDown pr e now g tm in
  let released :=
    handlePointerUp pr rect (syncRefs (fst pressed)) (snd pressed) in
  let g' := fst released in
  pending (snd released) = pending tm
  /\ offset (hooks g') = visibleOffset (refs g)
  /\ inertia (hooks g') = origin
  /\ inertiaActiveRef (refs g') = false
  /\ isDragging (hooks g') = false
  /\ isPressingRef (refs g') = false
  /\ pressTimerRef (refs g') = None
  /\ targetCellSize (hooks g') = cellSize pr.
Proof.
  intros Hwf Hnone Hoff Hmin. cbv zeta.
  pose proof (schedule_cancel Timeout (PressZoomCb (currentCellSize (hooks g)))
                PRESS_ZOOM_DELAY tm Hwf) as Hround.
  destruct Hwf as [Hpos _].
  unfold handlePointerDown, handlePointerUp, setTimeout, clearTimeout.
  cbn [schedule fst snd] in Hround.
  destruct (nextHandle tm) as [|n] eqn:En; [lia|].
  assert (Hslow : Rle_b (throwMinSpeed pr) (Math_hypot 0 0) = false)
    by (rewrite hypot_origin; apply Rle_b_false; exact Hmin).
  destruct (inertiaActiveRef (refs g)
            || Rneq_b (x (inertiaRef (refs g))) 0
            || Rneq_b (y (inertiaRef (refs g))) 0) eqn:Ecommit;
    repeat (progress (rewrite ?Hnone, ?Hslow, ?En, ?andb_false_r;
                      cbn -[Rle_b Math_hypot Rneq_b cancel]));
    (split; [exact Hround|]); repeat split.
  apply Bool.orb_false_iff in Ecommit. destruct Ecommit as [Ecommit Ey].
  apply Bool.orb_false_iff in Ecommit. destruct Ecommit as [_ Ex].
  apply Rneq_b_false in Ex, Ey. rewrite <- Hoff.
  unfold visibleOffset. apply point_eq; cbn [x y]; lra.
Qed.

Lemma click_stops_coasting_witness :
  let pr := defaultProps in
  let g := thrown pr 0 {| x := 300; y := 0 |} in
  let e := {| pointerId := 1; clientX := 10; clientY := 10 |} in
  let pressed := handlePointerDown pr e 5 g (fresh 0) in
  let released :=
    handlePointerUp pr None (syncRefs (fst pressed)) (snd pressed) in
  let g' := fst released in
  (wellFormed (fresh (A := Callback) 0)
   /\ pressTimerRef (refs g) = None
   /\ offsetRef (refs g) = offset (hooks g)
   /\ 0 < throwMinSpeed pr)
  /\ pending (snd released) = pending (fresh (A := Callback) 0)
  /\ offset (hooks g') = visibleOffset (refs g)
  /\ inertia (hooks g') = origin
  /\ inertiaActiveRef (refs g') = false
  /\ isDragging (hooks g') = false
  /\ isPressingRef (refs g') = false
  /\ pressTimerRef (refs g') = None
  /\ targetCellSize (hooks g') = cellSize pr.
Proof.
  assert (Hmin : 0 < throwMinSpeed defaultProps) by (cbn; lra).
  cbv zeta.
  split; [split; [apply wellFormed_fresh | split; [reflexivity |
          split; [reflexivity | exact Hmin]]]|].
  exact (click_stops_coasting defaultProps
           {| pointerId := 1; clientX := 10; clientY := 10 |} 5 None
           (thrown defaultProps 0 {| x := 300; y := 0 |}) (fresh 0)
           (wellFormed_fresh 0) eq_refl eq_refl Hmin).
Defined.

(** *** The press-zoom timeout and a drag *)

(** X13: once a move has started or continued a drag, the
    press-zoom timeout of that press changes nothing when it fires. *)
Theorem press_zoom_ignored_once_dragging pr e now rect rect' captured g :
  isPressingRef (refs g) = true ->
  draggingRef (refs g) = isDragging (hooks g) ->
  isDragging (hooks g) = true
  \/ DRAG_THRESHOLD
     < Math_hypot (clientX e - x (pressPosRef (refs g)))
         (clientY e - y (pressPosRef (refs g))) ->
  let dragged := syncRefs (handlePointerMove pr e now rect g) in
  pressZoom pr captured rect' dragged = dragged.
Proof.
  intros Hpress Hsync Hdrag. cbv zeta.
  destruct (handlePointerMove_dragging pr e now rect g Hpress Hsync Hdrag)
    as [Hd _].
  unfold pressZoom. cbn [syncRefs refs draggingRef].
  rewrite Hd. reflexivity.
Qed.

Lemma press_zoom_ignored_once_dragging_witness :
  let g := ref (isPressingRef_is true) (mounted defaultProps 0) in
  let e := {| pointerId := 1; clientX := 30; clientY := 40 |} in
  let dragged := syncRefs (handlePointerMove defaultProps e 9 None g) in
  (isPressingRef (refs g) = true
   /\ draggingRef (refs g) = isDragging (hooks g)
   /\ (isDragging (hooks g) = true
       \/ DRAG_THRESHOLD
          < Math_hypot (clientX e - x (pressPosRef (refs g)))
              (clientY e - y (pressPosRef (refs g)))))
  /\ pressZoom defaultProps 200 None dragged = dragged.
Proof.
  assert (Hfar : DRAG_THRESHOLD < Math_hypot (30 - 0) (40 - 0)).
  { unfold DRAG_THRESHOLD, Math_hypot.
    replace ((30 - 0) * (30 - 0) + (40 - 0) * (40 - 0)) with (50 * 50)
      by ring.
    rewrite sqrt_square; lra. }
  cbv zeta.
  split; [split; [reflexivity | split; [reflexivity | right; exact Hfar]]|].
  exact (press_zoom_ignored_once_dragging defaultProps
           {| pointerId := 1; clientX := 30; clientY := 40 |} 9 None None 200
           (ref (isPressingRef_is true) (mounted defaultProps 0))
           eq_refl eq_refl (or_intror Hfar)).
Defined.

End GalleryPointerFacts.

(** ** Infinite gallery: the arc and the grid *)

Module GalleryArcFacts.
Import Gallery GalleryFacts.
Local Open Scope R_scope.

(** *** [calcArcTransform] *)

(** [Math.max(0, Math.min(1, arcAmount))] *)
Lemma amount_clamped a : 0 <= Rmax 0 (Rmin 1 a) <= 1.
Proof.
  unfold Rmax, Rmin.
  destruct (Rle_dec 1 a); destruct (Rle_dec 0 _); lra.
Qed.

Lemma amount_clamped_nonpos a : a <= 0 -> Rmax 0 (Rmin 1 a) = 0.
Proof.
  intros Ha. unfold Rmax, Rmin.
  destruct (Rle_dec 1 a); destruct (Rle_dec 0 _); lra.
Qed.

Lemma edge_range d : 0 <= Rmin 1 (Rabs d) <= 1.
Proof.
  pose proof (Rabs_pos d). unfold Rmin.
  destruct (Rle_dec 1 (Rabs d)); lra.
Qed.

Lemma calcArcTransform_edgeFactor opts :
  0 <= edgeFactor (calcArcTransform opts) <= 1.
Proof.
  unfold calcArcTransform.
  destruct (Req_dec_T _ 0); [cbn; lra|].
  destruct (arcAxis opts); cbn [edgeFactor]; apply edge_range.
Qed.

Lemma calcArcTransform_flat opts :
  arcAmount opts <= 0 \/ arcMaxAngleDeg opts = 0 ->
  calcArcTransform opts
  = {| z := 0; yawDeg := 0; pitchDeg := 0; edgeFactor := 0 |}.
Proof.
  intros H. unfold calcArcTransform.
  destruct (Req_dec_T _ 0) as [_|Hne]; [reflexivity|].
  exfalso. apply Hne. unfold toRadians.
  destruct H as [H|H].
  - rewrite (amount_clamped_nonpos _ H). ring.
  - rewrite H. unfold Rdiv. ring.
Qed.

(** X14: with no bend (an amount of zero or less, or a maximum angle
    of zero) every tile lies flat, whatever its position and the viewport,
    and is drawn at full scale and opacity. *)
Theorem arc_flat_without_bend opts edgeFade :
  arcAmount opts <= 0 \/ arcMaxAngleDeg opts = 0 ->
  calcArcTransform opts
  = {| z := 0; yawDeg := 0; pitchDeg := 0; edgeFactor := 0 |}
  /\ tileScale edgeFade (calcArcTransform opts) = 1
  /\ tileOpacity (arcAmount opts) (calcArcTransform opts) = 1.
Proof.
  intros H.
  rewrite (calcArcTransform_flat opts H). unfold tileScale, tileOpacity.
  cbn [edgeFactor].
  repeat split; ring.
Qed.

Lemma arc_flat_without_bend_witness :
  let opts :=
    {| cellCenterX := 700; cellCenterY := 100; viewportW := 800;
       viewportH := 600; arcAxis := horizontal; arcMaxAngleDeg := 28;
       arcAmount := 0 |} in
  (arcAmount opts <= 0 \/ arcMaxAngleDeg opts = 0)
  /\ calcArcTransform opts
  = {| z := 0; yawDeg := 0; pitchDeg := 0; edgeFactor := 0 |}
  /\ tileScale 0.25 (calcArcTransform opts) = 1
  /\ tileOpacity (arcAmount opts) (calcArcTransform opts) = 1.
Proof.
  assert (H : (0 : R) <= 0) by lra.
  cbv zeta. split; [left; exact H|].
  exact (arc_flat_without_bend
           {| cellCenterX := 700; cellCenterY := 100; viewportW := 800;
              viewportH := 600; arcAxis := horizontal; arcMaxAngleDeg := 28;
              arcAmount := 0 |} 0.25 (or_introl H)).
Defined.

(** X15: the edge polish stays in range.  The edge factor is
    between 0 and 1; for an edge fade of zero or more the scale is between
    [1 - edgeFade] and 1; for an arc amount of at most 1 the opacity is
    between 0.6 and 1. *)
Theorem tile_polish_bounds opts edgeFade :
  0 <= edgeFade -> arcAmount opts <= 1 ->
  let t := calcArcTransform opts in
  0 <= edgeFactor t <= 1
  /\ 1 - edgeFade <= tileScale edgeFade t <= 1
  /\ 0.6 <= tileOpacity (arcAmount opts) t <= 1.
Proof.
  intros Hf Ha. cbv zeta.
  pose proof (calcArcTransform_edgeFactor opts) as He.
  split; [exact He|]. unfold tileScale, tileOpacity.
  assert (Hsq : 0 <= edgeFactor (calcArcTransform opts)
                     * edgeFactor (calcArcTransform opts) <= 1) by nra.
  split; [nra|].
  destruct (Rle_lt_dec (arcAmount opts) 0) as [Hneg|Hpos].
  - rewrite (calcArcTransform_flat opts (or_introl Hneg)).
    cbn [edgeFactor]. lra.
  - nra.
Qed.

Lemma tile_polish_bounds_witness :
  let opts :=
    {| cellCenterX := 700; cellCenterY := 100; viewportW := 800;
       viewportH := 600; arcAxis := horizontal; arcMaxAngleDeg := 28;
       arcAmount := 0.6 |} in
  let t := calcArcTransform opts in
  (0 <= 0.25 /\ arcAmount opts <= 1)
  /\ 0 <= edgeFactor t <= 1
  /\ 1 - 0.25 <= tileScale 0.25 t <= 1
  /\ 0.6 <= tileOpacity (arcAmount opts) t <= 1.
Proof.
  assert (Hf : 0 <= 0.25) by lra.
  assert (Ha : 0.6 <= 1) by lra.
  cbv zeta. split; [split; [exact Hf | exact Ha]|].
  exact (tile_polish_bounds
           {| cellCenterX := 700; cellCenterY := 100; viewportW := 800;
              viewportH := 600; arcAxis := horizontal; arcMaxAngleDeg := 28;
              arcAmount := 0.6 |} 0.25 Hf Ha).
Defined.

(** The maximum angle in radians, as [calcArcTransform] computes it. *)
Lemma maxAngle_range deg a :
  0 <= deg < 180 ->
  0 <= toRadians deg * Rmax 0 (Rmin 1 a) < PI.
Proof.
  intros Hd. pose proof (amount_clamped a) as Ha. pose proof PI_RGT_0.
  unfold toRadians.
  assert (0 <= deg * PI / 180 < PI) by (split; nra).
  split; nra.
Qed.

Lemma bend_radius_pos w m :
  0 < w -> 0 <= m < PI -> 0 < w / (2 * sin (Rmax 0.001 m)).
Proof.
  intros Hw Hm.
  assert (Hs : 0 < sin (Rmax 0.001 m)).
  { pose proof PI2_3_2. apply sin_gt_0; unfold Rmax;
      destruct (Rle_dec 0.001 m); lra. }
  apply Rdiv_lt_0_compat; lra.
Qed.

Lemma degrees_of_radians d deg k :
  d * (toRadians deg * k) * 180 / PI = d * deg * k.
Proof.
  unfold toRadians. field. apply PI_neq0.
Qed.

(** X16: the geometry of the arc along its axis, for a viewport of
    positive extent and a maximum angle from 0 up to, not including, 180
    degrees.  No tile is pushed behind the plane ([z >= 0]); the tile turns
    about the axis by the clamped amount times the maximum angle times its
    signed distance from the centre of the viewport, in half viewports; and
    it does not turn about the other axis. *)
Theorem arc_geometry opts :
  0 < match arcAxis opts with
      | horizontal => viewportW opts
      | vertical => viewportH opts
      end ->
  0 <= arcMaxAngleDeg opts < 180 ->
  let t := calcArcTransform opts in
  let bend := arcMaxAngleDeg opts * Rmax 0 (Rmin 1 (arcAmount opts)) in
  0 <= z t
  /\ match arcAxis opts with
     | horizontal =>
         yawDeg t
         = - ((cellCenterX opts - viewportW opts / 2)
              / (viewportW opts / 2) * bend)
         /\ pitchDeg t = 0
     | vertical =>
         pitchDeg t
         = (cellCenterY opts - viewportH opts / 2)
           / (viewportH opts / 2) * bend
         /\ yawDeg t = 0
     end.
Proof.
  intros Hw Hd. cbv zeta.
  pose proof (maxAngle_range _ (arcAmount opts) Hd) as Hm.
  unfold calcArcTransform.
  destruct (Req_dec_T _ 0) as [E0|Hne].
  - cbn [z yawDeg pitchDeg]. split; [lra|].
    assert (Eb : arcMaxAngleDeg opts * Rmax 0 (Rmin 1 (arcAmount opts)) = 0).
    { unfold toRadians in E0. pose proof PI_RGT_0. nra. }
    rewrite Eb. destruct (arcAxis opts); split; ring.
  - destruct (arcAxis opts); cbn [z yawDeg pitchDeg].
    + pose proof (bend_radius_pos _ _ Hw Hm) as Hr.
      set (r := viewportW opts / _) in *.
      set (angle := _ * (toRadians _ * _)).
      pose proof (COS_bound angle). split; [nra|]. split; [|reflexivity].
      unfold angle.
      replace (- (((cellCenterX opts - viewportW opts / 2)
                   / (viewportW opts / 2)
                   * (toRadians (arcMaxAngleDeg opts)
                      * Rmax 0 (Rmin 1 (arcAmount opts)))) * 180) / PI)
        with (- (((cellCenterX opts - viewportW opts / 2)
                  / (viewportW opts / 2)
                  * (toRadians (arcMaxAngleDeg opts)
                     * Rmax 0 (Rmin 1 (arcAmount opts)))) * 180 / PI))
        by (unfold Rdiv; ring).
      rewrite degrees_of_radians. ring.
    + pose proof (bend_radius_pos _ _ Hw Hm) as Hr.
      set (r := viewportH opts / _) in *.
      set (angle := _ * (toRadians _ * _)).
      pose proof (COS_bound angle). split; [nra|]. split; [|reflexivity].
      unfold angle. rewrite degrees_of_radians. ring.
Qed.

Lemma arc_geometry_witness :
  let opts :=
    {| cellCenterX := 700; cellCenterY := 100; viewportW := 800;
       viewportH := 600; arcAxis := horizontal; arcMaxAngleDeg := 28;
       arcAmount := 0.5 |} in
  let t := calcArcTransform opts in
  (0 < viewportW opts /\ 0 <= arcMaxAngleDeg opts < 180)
  /\ 0 <= z t
  /\ yawDeg t
     = - ((cellCenterX opts - viewportW opts / 2) / (viewportW opts / 2)
          * (arcMaxAngleDeg opts * Rmax 0 (Rmin 1 (arcAmount opts))))
  /\ pitchDeg t = 0.
Proof.
  assert (Hw : 0 < 800) by lra.
  assert (Hd : 0 <= 28 < 180) by lra.
  cbv zeta. split; [split; [exact Hw | exact Hd]|].
  exact (arc_geometry
           {| cellCenterX := 700; cellCenterY := 100; viewportW := 800;
              viewportH := 600; arcAxis := horizontal; arcMaxAngleDeg := 28;
              arcAmount := 0.5 |} Hw Hd).
Defined.

(** X17: the arc is mirror-symmetric.  The tile at the mirror
    position across the centre of the viewport has the same depth and edge
    factor and the opposite turn. *)
Theorem arc_mirror_symmetry opts :
  let mirrored :=
    {| cellCenterX := viewportW opts - cellCenterX opts;
       cellCenterY := viewportH opts - cellCenterY opts;
       viewportW := viewportW opts; viewportH := viewportH opts;
       arcAxis := arcAxis opts; arcMaxAngleDeg := arcMaxAngleDeg opts;
       arcAmount := arcAmount opts |} in
  z (calcArcTransform mirrored) = z (calcArcTransform opts)
  /\ edgeFactor (calcArcTransform mirrored)
     = edgeFactor (calcArcTransform opts)
  /\ yawDeg (calcArcTransform mirrored) = - yawDeg (calcArcTransform opts)
  /\ pitchDeg (calcArcTransform mirrored)
     = - pitchDeg (calcArcTransform opts).
Proof.
  cbv zeta. unfold calcArcTransform.
  cbn [cellCenterX cellCenterY viewportW viewportH arcAxis arcMaxAngleDeg
       arcAmount].
  destruct (Req_dec_T _ 0) as [_|_].
  - cbn [z yawDeg pitchDeg edgeFactor]. repeat split; ring.
  - destruct (arcAxis opts); cbn [z yawDeg pitchDeg edgeFactor].
    + replace (viewportW opts - cellCenterX opts - viewportW opts / 2)
        with (- (cellCenterX opts - viewportW opts / 2)) by field.
      replace (- (cellCenterX opts - viewportW opts / 2) / (viewportW opts / 2))
        with (- ((cellCenterX opts - viewportW opts / 2)
                 / (viewportW opts / 2)))
        by (unfold Rdiv; ring).
      set (d := (_ - _) / _). set (m := toRadians _ * _).
      replace (- d * m) with (- (d * m)) by ring.
      rewrite Rabs_Ropp, cos_neg.
      repeat split; unfold Rdiv; ring.
    + replace (viewportH opts - cellCenterY opts - viewportH opts / 2)
        with (- (cellCenterY opts - viewportH opts / 2)) by field.
      replace (- (cellCenterY opts - viewportH opts / 2) / (viewportH opts / 2))
        with (- ((cellCenterY opts - viewportH opts / 2)
                 / (viewportH opts / 2)))
        by (unfold Rdiv; ring).
      set (d := (_ - _) / _). set (m := toRadians _ * _).
      replace (- d * m) with (- (d * m)) by ring.
      rewrite Rabs_Ropp, cos_neg.
      repeat split; unfold Rdiv; ring.
Qed.

(** *** The grid *)

Lemma gridStart_bracket off c :
  0 < c ->
  - off - 6 * c < IZR (gridStart off c) * c <= - off - 5 * c.
Proof.
  intros Hc. unfold gridStart. rewrite minus_IZR.
  destruct (base_Int_part (- off / c)) as [Hle Hgt].
  assert (Eq : - off / c * c = - off) by (field; lra).
  set (f := IZR (Int_part (- off / c))) in *.
  assert (f * c <= - off / c * c) by (apply Rmult_le_compat_r; lra).
  assert (- off / c * c - c < f * c) by nra.
  lra.
Qed.

(** X18: where the 20 by 20 grid lies, for a positive cell size.
    Columns and rows are one cell apart.  The first column starts between
    6 and 5 cells before the point that the parallax and the inertia shift
    away from the container's left edge, and the last column ends between
    14 and 15 cells after it; the same holds for rows.  The start of the
    grid follows the offset only, not the parallax or the inertia. *)
Theorem grid_span h :
  0 < currentCellSize h ->
  let c := currentCellSize h in
  let startX := gridStart (x (offset h)) c in
  let startY := gridStart (y (offset h)) c in
  let shiftX := x (mouseOffset h) + x (inertia h) in
  let shiftY := y (mouseOffset h) + y (inertia h) in
  (forall col, tileLeft h (col + 1) = tileLeft h col + c)
  /\ (forall row, tileTop h (row + 1) = tileTop h row + c)
  /\ shiftX - 6 * c < tileLeft h startX <= shiftX - 5 * c
  /\ shiftX + 14 * c
     < tileLeft h (startX + Z.of_nat gridSize - 1) + c
     <= shiftX + 15 * c
  /\ shiftY - 6 * c < tileTop h startY <= shiftY - 5 * c
  /\ shiftY + 14 * c
     < tileTop h (startY + Z.of_nat gridSize - 1) + c
     <= shiftY + 15 * c.
Proof.
  intros Hc. cbv zeta.
  pose proof (gridStart_bracket (x (offset h)) _ Hc) as Hx.
  pose proof (gridStart_bracket (y (offset h)) _ Hc) as Hy.
  unfold tileLeft, tileTop.
  change (Z.of_nat gridSize) with 20%Z.
  repeat split; intros; rewrite ?minus_IZR, ?plus_IZR; try lra.
Qed.

Lemma grid_span_witness :
  let h := hooks (mounted defaultProps 0) in
  let c := currentCellSize h in
  let startX := gridStart (x (offset h)) c in
  let startY := gridStart (y (offset h)) c in
  let shiftX := x (mouseOffset h) + x (inertia h) in
  let shiftY := y (mouseOffset h) + y (inertia h) in
  0 < currentCellSize h
  /\ (forall col, tileLeft h (col + 1) = tileLeft h col + c)
  /\ (forall row, tileTop h (row + 1) = tileTop h row + c)
  /\ shiftX - 6 * c < tileLeft h startX <= shiftX - 5 * c
  /\ shiftX + 14 * c
     < tileLeft h (startX + Z.of_nat gridSize - 1) + c
     <= shiftX + 15 * c
  /\ shiftY - 6 * c < tileTop h startY <= shiftY - 5 * c
  /\ shiftY + 14 * c
     < tileTop h (startY + Z.of_nat gridSize - 1) + c
     <= shiftY + 15 * c.
Proof.
  assert (Hc : 0 < currentCellSize (hooks (mounted defaultProps 0)))
    by (cbn; lra).
  cbv zeta. split; [exact Hc|].
  exact (grid_span (hooks (mounted defaultProps 0)) Hc).
Defined.

End GalleryArcFacts.

(** ** Clock: the interval and the face *)

Module ClockFacts.
Import Browser BrowserFacts TimerTableFacts Clock.
Local Open Scope R_scope.

(** *** Angles *)

(** X19: for a valid time of day the three angles lie in
    [0, 360); the hour angle is the same twelve hours later, and it moves
    with the minutes: it is [30 * (hour mod 12)] plus half a degree per
    minute. *)
Theorem clock_angles now :
  validDate now ->
  0 <= hourAngle now < 360
  /\ 0 <= minuteAngle now < 360
  /\ 0 <= secondAngle now < 360
  /\ hourAngle now
     = 30 * IZR (getHours now mod 12) + IZR (getMinutes now) / 2
  /\ ((getHours now < 12)%Z ->
      hourAngle {| getHours := getHours now + 12;
                   getMinutes := getMinutes now;
                   getSeconds := getSeconds now |}
      = hourAngle now).
Proof.
  intros [Hh [Hm Hs]].
  unfold hourAngle, minuteAngle, secondAngle, hour.
  cbn [getHours getMinutes getSeconds].
  rewrite (Z.rem_mod_nonneg (getHours now) 12) by lia.
  pose proof (Z.mod_pos_bound (getHours now) 12 ltac:(lia)) as Hr.
  assert (0 <= IZR (getHours now mod 12) <= 11)
    by (split; apply IZR_le; lia).
  assert (0 <= IZR (getMinutes now) <= 59) by (split; apply IZR_le; lia).
  assert (0 <= IZR (getSeconds now) <= 59) by (split; apply IZR_le; lia).
  repeat split; try lra.
  intros Hlt.
  rewrite (Z.rem_mod_nonneg (getHours now + 12) 12) by lia.
  replace ((getHours now + 12) mod 12)%Z with (getHours now mod 12)%Z;
    [reflexivity|].
  rewrite <- (Z.mul_1_l 12) at 2. rewrite Z.mod_add by lia. reflexivity.
Qed.

Lemma clock_angles_witness :
  let now := {| getHours := 15; getMinutes := 30; getSeconds := 45 |} in
  validDate now
  /\ 0 <= hourAngle now < 360
  /\ 0 <= minuteAngle now < 360
  /\ 0 <= secondAngle now < 360
  /\ hourAngle now
     = 30 * IZR (getHours now mod 12) + IZR (getMinutes now) / 2
  /\ ((getHours now < 12)%Z ->
      hourAngle {| getHours := getHours now + 12;
                   getMinutes := getMinutes now;
                   getSeconds := getSeconds now |}
      = hourAngle now).
Proof.
  assert (Hv : validDate
                 {| getHours := 15; getMinutes := 30; getSeconds := 45 |})
    by (unfold validDate; cbn; lia).
  cbv zeta. split; [exact Hv|].
  exact (clock_angles
           {| getHours := 15; getMinutes := 30; getSeconds := 45 |} Hv).
Defined.

(** *** Hands and ticks *)

Lemma quarter_turn_back a :
  cos ((a - 90) * (PI / 180)) = sin (a * (PI / 180))
  /\ sin ((a - 90) * (PI / 180)) = - cos (a * (PI / 180)).
Proof.
  replace ((a - 90) * (PI / 180)) with (- (PI / 2 - a * (PI / 180)))
    by field.
  rewrite cos_neg, sin_neg, cos_shift, sin_shift. split; reflexivity.
Qed.

(** X20: a hand at angle [a] points [a] degrees clockwise from
    twelve o'clock (the y axis of the drawing points down), and its tip is
    exactly its length away from the centre. *)
Theorem hand_points_clockwise_from_twelve len a :
  let '(x2, y2) := handTip len a in
  x2 = center + len * sin (a * (PI / 180))
  /\ y2 = center - len * cos (a * (PI / 180))
  /\ (x2 - center) * (x2 - center) + (y2 - center) * (y2 - center)
     = len * len.
Proof.
  unfold handTip. destruct (quarter_turn_back a) as [-> ->].
  repeat split; try ring.
  pose proof (sin2_cos2 (a * (PI / 180))) as H. unfold Rsqr in H.
  set (s := sin _) in *. set (c := cos _) in *.
  replace (center + len * s - center) with (len * s) by ring.
  replace (center + len * - c - center) with (- (len * c)) by ring.
  replace (len * s * (len * s) + - (len * c) * - (len * c))
    with (len * len * (s * s + c * c)) by ring.
  rewrite H. ring.
Qed.

(** X21: the hour hand on the hour lies along that hour's tick.
    Tick [i] runs outwards from [radius - 6] to [radius - 2] in the
    direction the hour hand has at [i] o'clock, whatever the seconds, and
    there are twelve ticks when they are shown. *)
Theorem hour_hand_meets_tick (i : nat) (s : Z) :
  (i < 12)%nat ->
  let now := {| getHours := Z.of_nat i; getMinutes := 0; getSeconds := s |} in
  tickMark i
  = (handTip (radius - 6) (hourAngle now),
     handTip (radius - 2) (hourAngle now))
  /\ option_map (fun l => nth_error l i) (ticks true)
     = Some (Some (tickMark i))
  /\ option_map (@List.length _) (ticks true) = Some 12%nat
  /\ ticks false = None.
Proof.
  intros Hi. cbv zeta.
  assert (Ea : hourAngle {| getHours := Z.of_nat i; getMinutes := 0;
                            getSeconds := s |} = INR i * 30).
  { unfold hourAngle, hour. cbn [getHours getMinutes].
    rewrite Z.rem_small by lia. rewrite <- INR_IZR_INZ. lra. }
  rewrite Ea. repeat split.
  - unfold tickMark, handTip. cbv zeta.
    apply f_equal2; apply f_equal2; ring.
  - unfold ticks. cbn [option_map]. rewrite nth_error_map.
    rewrite nth_error_seq. destruct (Nat.ltb_spec i 12) as [_|H]; [|lia].
    reflexivity.
Qed.

Lemma hour_hand_meets_tick_witness :
  let now := {| getHours := Z.of_nat 3; getMinutes := 0; getSeconds := 7 |} in
  (3 < 12)%nat
  /\ tickMark 3
     = (handTip (radius - 6) (hourAngle now),
        handTip (radius - 2) (hourAngle now))
  /\ option_map (fun l => nth_error l 3%nat) (ticks true)
     = Some (Some (tickMark 3))
  /\ option_map (@List.length _) (ticks true) = Some 12%nat
  /\ ticks false = None.
Proof.
  assert (H : (3 < 12)%nat) by lia.
  cbv zeta. split; [exact H|].
  exact (hour_hand_meets_tick 3 7 H).
Defined.

(** *** The interval *)

(** X22: off the canvas the clock's interval runs [setNow] once a
    second for as long as the clock is mounted: the [n]-th run is [n]
    seconds after the effect.  The effect's cleanup leaves nothing pending,
    so nothing runs any more.  On the canvas nothing is scheduled. *)
Theorem clock_ticks_every_second tm n k :
  pending tm = [] ->
  let '(i, tm1) := tickEffect false tm in
  let '(ran, tmn) := fireMany (S n) tm1 in
  ran = repeat SetNow (S n)
  /\ (clock tmn == clock tm + inject_Z (Z.of_nat (S n)) * 1000)%Q
  /\ pending (tickCleanup i tmn) = []
  /\ fst (fireMany k (tickCleanup i tmn)) = []
  /\ tickEffect true tm = ({| interval := None |}, tm).
Proof.
  intros Hp. unfold tickEffect, setInterval, schedule. rewrite Hp.
  cbn [app]. change (clampDelay 1000) with 1000%Q.
  rewrite fireMany_interval_alone.
  assert (Hclean :
    pending (tickCleanup {| interval := Some (nextHandle tm) |}
               {| clock := Nat.iter n (fun q => q + 1000)%Q (clock tm + 1000)%Q;
                  nextHandle := S (nextHandle tm);
                  pending :=
                    [mkTimer (nextHandle tm) Interval
                       (Nat.iter (S n) (fun q => q + 1000)%Q
                          (clock tm + 1000)%Q) 1000 SetNow] |}) = []).
  { unfold tickCleanup, clearInterval, cancel.
    cbn [interval pending filter]. unfold targets.
    cbn [handle kind sameTable]. rewrite Nat.eqb_refl. reflexivity. }
  repeat split.
  - cbn [clock]. rewrite iter_period, Nat2Z.inj_succ. unfold Z.succ.
    rewrite inject_Z_plus. ring.
  - exact Hclean.
  - rewrite (fireMany_idle k _ Hclean). reflexivity.
Qed.

Lemma clock_ticks_every_second_witness :
  pending (fresh (A := Callback) 0) = []
  /\ let '(i, tm1) := tickEffect false (fresh 0) in
     let '(ran, tmn) := fireMany 3 tm1 in
     ran = repeat SetNow 3
     /\ (clock tmn
         == clock (fresh (A := Callback) 0) + inject_Z (Z.of_nat 3) * 1000)%Q
     /\ pending (tickCleanup i tmn) = []
     /\ fst (fireMany 2 (tickCleanup i tmn)) = []
     /\ tickEffect true (fresh 0) = ({| interval := None |}, fresh 0).
Proof.
  split; [reflexivity|].
  exact (clock_ticks_every_second (fresh 0) 2 2 eq_refl).
Defined.

End ClockFacts.

(** ** AmbiLight: links, polling and seeking *)

Module AmbiLightLinkFacts.
Import Browser BrowserFacts TimerTableFacts AmbiLight AmbiLightFacts.
Local Open Scope string_scope.

(** *** [ytId] *)

Lemma prefix_app (a b : string) : String.prefix a (a ++ b) = true.
Proof.
  induction a as [|c a IH]; cbn [append String.prefix].
  - destruct b; reflexivity.
  - destruct (ascii_dec c c) as [_|N]; [exact IH | contradiction].
Qed.

Lemma drop_app (a b : string) : drop (String.length a) (a ++ b) = b.
Proof. induction a as [|c a IH]; cbn; [reflexivity | exact IH]. Qed.

Lemma takeId_clean (s : string) : cleanId s = true -> takeId s = s.
Proof.
  induction s as [|c s IH]; cbn [cleanId takeId]; [reflexivity|].
  intros H. apply andb_true_iff in H as [Hc Hs].
  rewrite Hc, (IH Hs). reflexivity.
Qed.

Lemma matchId_at_start (lead id : string) :
  lead = "/embed/" \/ lead = "/shorts/" ->
  id <> "" -> cleanId id = true ->
  matchId (lead ++ id) = Some id.
Proof.
  intros Hlead Hne Hclean.
  assert (Hhere : matchHere (lead ++ id) = Some id).
  { unfold matchHere.
    destruct Hlead as [-> | ->].
    - rewrite (prefix_app "/embed/" id), (drop_app "/embed/" id).
      rewrite (takeId_clean id Hclean).
      destruct id; [contradiction | reflexivity].
    - replace (String.prefix "/embed/" ("/shorts/" ++ id)) with false
        by reflexivity.
      rewrite (prefix_app "/shorts/" id), (drop_app "/shorts/" id).
      rewrite (takeId_clean id Hclean).
      destruct id; [contradiction | reflexivity]. }
  destruct (lead ++ id); cbn [matchId]; rewrite Hhere; reflexivity.
Qed.

(** X23: the id comes back out of each of the three link forms, on
    a host whose name contains [youtube.com] and not [youtu.be]: from the
    query ([?v=ID]) when it is there and not empty, otherwise from a path
    [/embed/ID] or [/shorts/ID] whose [ID] is not empty and has no [/]
    or [?]; and on a host whose name contains [youtu.be], from the path
    [/ID]. *)
Theorem ytId_recovers_the_id (host id : string) (v : option string) :
  id <> "" ->
  (includes "youtu.be" host = true ->
   ytId (Some {| hostname := host; pathname := "/" ++ id; searchV := v |})
   = id)
  /\ (includes "youtu.be" host = false ->
      includes "youtube.com" host = true ->
      (forall path,
         ytId (Some {| hostname := host; pathname := path;
                       searchV := Some id |}) = id)
      /\ (v = None \/ v = Some "" -> cleanId id = true ->
          ytId (Some {| hostname := host; pathname := "/embed/" ++ id;
                        searchV := v |}) = id
          /\ ytId (Some {| hostname := host; pathname := "/shorts/" ++ id;
                           searchV := v |}) = id)).
Proof.
  intros Hne. split.
  - intros Hshort. unfold ytId. cbn [hostname pathname].
    rewrite Hshort. reflexivity.
  - intros Hshort Hlong. split.
    + intros path. unfold ytId. cbn [hostname pathname searchV].
      rewrite Hshort, Hlong. destruct id; [contradiction | reflexivity].
    + intros Hv Hclean. unfold ytId. cbn [hostname pathname searchV].
      rewrite Hshort, Hlong.
      rewrite (matchId_at_start "/embed/" id (or_introl eq_refl) Hne Hclean).
      rewrite (matchId_at_start "/shorts/" id (or_intror eq_refl) Hne Hclean).
      destruct Hv as [-> | ->]; split; reflexivity.
Qed.

Lemma ytId_recovers_the_id_witness :
  let id := "dQw4w9WgXcQ" in
  id <> ""
  /\ (includes "youtu.be" "www.youtube.com" = true ->
      ytId (Some {| hostname := "www.youtube.com"; pathname := "/" ++ id;
                    searchV := None |}) = id)
  /\ (includes "youtu.be" "www.youtube.com" = false ->
      includes "youtube.com" "www.youtube.com" = true ->
      (forall path,
         ytId (Some {| hostname := "www.youtube.com"; pathname := path;
                       searchV := Some id |}) = id)
      /\ (@None string = None \/ @None string = Some "" -> cleanId id = true ->
          ytId (Some {| hostname := "www.youtube.com";
                        pathname := "/embed/" ++ id;
                        searchV := None |}) = id
          /\ ytId (Some {| hostname := "www.youtube.com";
                           pathname := "/shorts/" ++ id;
                           searchV := None |}) = id)).
Proof.
  assert (Hne : "dQw4w9WgXcQ" <> "") by discriminate.
  cbv zeta. split; [exact Hne|].
  exact (ytId_recovers_the_id "www.youtube.com" "dQw4w9WgXcQ" None Hne).
Defined.

Lemma takeId_run (t : string) : cleanId (takeId t) = true.
Proof.
  induction t as [|a t IH]; cbn [takeId]; [reflexivity|].
  destruct (idChar a) eqn:Ea; [|reflexivity].
  cbn [cleanId]. rewrite Ea, IH. reflexivity.
Qed.

Lemma taken_clean (t : string) :
  takeId t <> "" -> takeId t <> "" /\ cleanId (takeId t) = true.
Proof. intros H. split; [exact H | apply takeId_run]. Qed.

Lemma taken_found (t found : string) :
  match takeId t with
  | "" => None
  | String a r => Some (String a r)
  end = Some found ->
  found <> "" /\ cleanId found = true.
Proof.
  destruct (takeId t) as [|a r] eqn:Et; [discriminate|].
  intros [= <-]. split; [discriminate|]. rewrite <- Et. apply takeId_run.
Qed.

(** X24: no id where there is none to find.  The id is empty for a
    string that is not a URL, for a host whose name contains neither
    [youtu.be] nor [youtube.com], and on a [youtube.com] host with no [v]
    and a path without [/embed/] or [/shorts/]; and an id taken from a path
    never contains [/] or [?] and is never empty. *)
Theorem ytId_empty_or_clean (u : URL) :
  ytId None = ""
  /\ (includes "youtu.be" (hostname u) = false ->
      includes "youtube.com" (hostname u) = false ->
      ytId (Some u) = "")
  /\ (forall id, matchId (pathname u) = Some id ->
      id <> "" /\ cleanId id = true)
  /\ (includes "/embed/" (pathname u) = false ->
      includes "/shorts/" (pathname u) = false ->
      matchId (pathname u) = None).
Proof.
  split; [reflexivity|]. split.
  - intros H1 H2. unfold ytId. rewrite H1, H2. reflexivity.
  - split.
    + intros id. induction (pathname u) as [|c s IH].
      * cbn. discriminate.
      * cbn [matchId].
        destruct (matchHere (String c s)) as [found|] eqn:Eh; [|exact IH].
        intros [= <-]. clear IH. revert Eh. unfold matchHere.
        destruct (String.prefix "/embed/" (String c s));
          destruct (String.prefix "/shorts/" (String c s));
          try discriminate;
          try (destruct (takeId (drop (String.length "/embed/")
                                   (String c s))) eqn:Et;
               [|intros [= <-]; rewrite <- Et; apply taken_clean;
                 rewrite Et; discriminate]);
          try discriminate;
          intros Eh; apply taken_found in Eh; exact Eh.
    + induction (pathname u) as [|c s IH]; [reflexivity|].
      cbn [includes]. intros He Hs.
      apply orb_false_iff in He as [He1 He2].
      apply orb_false_iff in Hs as [Hs1 Hs2].
      cbn [matchId].
      assert (Hhere : matchHere (String c s) = None).
      { unfold matchHere. rewrite He1, Hs1. reflexivity. }
      rewrite Hhere. apply IH; assumption.
Qed.

Lemma ytId_empty_or_clean_witness :
  let u := {| hostname := "vimeo.com"; pathname := "/embed/abc";
              searchV := None |} in
  ytId None = ""
  /\ (includes "youtu.be" (hostname u) = false ->
      includes "youtube.com" (hostname u) = false ->
      ytId (Some u) = "")
  /\ (forall id, matchId (pathname u) = Some id ->
      id <> "" /\ cleanId id = true)
  /\ (includes "/embed/" (pathname u) = false ->
      includes "/shorts/" (pathname u) = false ->
      matchId (pathname u) = None).
Proof.
  exact (ytId_empty_or_clean
           {| hostname := "vimeo.com"; pathname := "/embed/abc";
              searchV := None |}).
Defined.

End AmbiLightLinkFacts.

(** ** AmbiLight: polling, seeking and the glow in step *)

Module AmbiLightPlaybackFacts.
Import Browser BrowserFacts TimerTableFacts AmbiLight AmbiLightFacts.
Local Open Scope Q_scope.

(** *** [sync] *)

Lemma drifted_same (a : Q) : drifted a a = false.
Proof.
  unfold drifted.
  assert (H : Qle_bool (Qabs (a - a)) 0.2 = true).
  { apply Qle_bool_iff.
    assert (E : a - a == 0) by ring. rewrite E. discriminate. }
  rewrite H. reflexivity.
Qed.

(** X25: [sync] is idempotent, whether or not the browser lets
    the glow play: a second [timeupdate] with the main video unchanged
    leaves the glow as the first one left it.  A glow already in step,
    within 0.2 s and paused or playing like the main video, is not
    touched at all. *)
Theorem sync_idempotent (allowed : bool) (v g : Media) :
  sync allowed v (sync allowed v g) = sync allowed v g
  /\ (drifted (currentTime g) (currentTime v) = false ->
      paused g = paused v -> sync allowed v g = g).
Proof.
  split.
  - destruct v as [tv pv], g as [tg pg].
    unfold sync, pauseGlow, playGlow. cbn [currentTime paused].
    destruct (drifted tg tv) eqn:Ed; destruct pv, pg, allowed;
      cbn [currentTime paused andb negb];
      rewrite ?drifted_same, ?Ed; reflexivity.
  - destruct v as [tv pv], g as [tg pg]. cbn [currentTime paused].
    intros Ed ->. unfold sync. cbn [currentTime paused]. rewrite Ed.
    destruct pv; reflexivity.
Qed.

Lemma sync_idempotent_witness :
  let v := {| currentTime := 12; paused := false |} in
  let g := {| currentTime := 11.9; paused := false |} in
  sync true v (sync true v g) = sync true v g
  /\ (drifted (currentTime g) (currentTime v) = false ->
      paused g = paused v -> sync true v g = g).
Proof.
  exact (sync_idempotent true {| currentTime := 12; paused := false |}
           {| currentTime := 11.9; paused := false |}).
Defined.

(** *** Polling for the IFrame API *)

(** X26: an instance that mounts before the IFrame API is there
    polls for it.  While the API is missing a poll changes nothing; the
    first poll that finds it sets the player up (given the main iframe) and
    clears the interval, leaving the timers as they were before the mount,
    and the effect's cleanup afterwards changes nothing more. *)
Theorem youtube_poll_sets_up_once target pr hasMainFrame w tm :
  wellFormed tm ->
  target = canvas \/ target = preview ->
  isYouTube pr = true -> youTubeId pr <> ""%string ->
  apiReady w = false ->
  let '(w1, i1, tm1) := youTubeEffect target pr hasMainFrame w mounted tm in
  apiReady w1 = false
  /\ pollYT hasMainFrame w1 i1 tm1 = (i1, tm1)
  /\ ytPlayer i1 = false
  /\ (exists h, interval i1 = Some h /\ live h Interval tm1 = true)
  /\ forall w2, apiReady w2 = true ->
       let '(i2, tm2) := pollYT hasMainFrame w2 i1 tm1 in
       ytPlayer i2 = hasMainFrame
       /\ pending tm2 = pending tm
       /\ pending (snd (youTubeCleanup i2 tm2)) = pending tm.
Proof.
  intros Hwf Htarget Hyt Hid Hready.
  pose proof (schedule_cancel Interval PollYT 100 tm Hwf) as Hround.
  assert (Heqb : String.eqb (youTubeId pr) "" = false)
    by (apply String.eqb_neq; exact Hid).
  assert (Hw1 : apiReady (loadYouTubeAPI w) = false).
  { unfold loadYouTubeAPI. rewrite Hready.
    destruct (_ytApiLoading w); [exact Hready|].
    unfold apiReady in *. exact Hready. }
  unfold youTubeEffect.
  destruct Htarget as [-> | ->];
    rewrite Hyt, Heqb, Hready; cbn [negb orb];
    unfold setInterval in *;
    destruct (schedule Interval PollYT 100 tm) as [h tm1] eqn:Es;
    cbn [fst snd] in Hround;
    (assert (Hlive : live h Interval tm1 = true);
     [ unfold schedule in Es; injection Es as <- <-;
       unfold live; cbn [pending]; rewrite existsb_app;
       cbn [existsb]; unfold targets; cbn [handle kind sameTable];
       rewrite Nat.eqb_refl; cbn; apply orb_true_r |]);
    (split; [exact Hw1|]);
    (split; [unfold pollYT; rewrite Hw1; reflexivity|]);
    (split; [reflexivity|]);
    (split; [exists h; split; [reflexivity | exact Hlive]|]);
    intros w2 Hw2; unfold pollYT; rewrite Hw2; cbn [interval];
    unfold clearInterval, youTubeCleanup, setupYT;
    (split; [destruct hasMainFrame; reflexivity|]);
    (split; [exact Hround|]);
    destruct hasMainFrame; cbn [negb interval snd];
    unfold clearInterval; rewrite cancel_twice; exact Hround.
Qed.

Lemma youtube_poll_sets_up_once_witness :
  (wellFormed (fresh (A := Callback) 0)
   /\ (canvas = canvas \/ canvas = preview)
   /\ isYouTube youTubeProps = true
   /\ youTubeId youTubeProps <> ""%string
   /\ apiReady blankWindow = false)
  /\ let '(w1, i1, tm1) :=
       youTubeEffect canvas youTubeProps true blankWindow mounted (fresh 0) in
     apiReady w1 = false
     /\ pollYT true w1 i1 tm1 = (i1, tm1)
     /\ ytPlayer i1 = false
     /\ (exists h, interval i1 = Some h /\ live h Interval tm1 = true)
     /\ forall w2, apiReady w2 = true ->
          let '(i2, tm2) := pollYT true w2 i1 tm1 in
          ytPlayer i2 = true
          /\ pending tm2 = pending (fresh (A := Callback) 0)
          /\ pending (snd (youTubeCleanup i2 tm2))
             = pending (fresh (A := Callback) 0).
Proof.
  assert (Hid : youTubeId youTubeProps <> ""%string) by discriminate.
  split.
  - split; [apply wellFormed_fresh|].
    split; [left; reflexivity|].
    split; [reflexivity|]. split; [exact Hid | reflexivity].
  - exact (youtube_poll_sets_up_once canvas youTubeProps true blankWindow
             (fresh 0) (wellFormed_fresh 0) (or_introl eq_refl) eq_refl Hid
             eq_refl).
Defined.

(** *** Seeking to [startTime] *)

Lemma Qle_bool_lt_false (a b : Q) : a < b -> Qle_bool b a = false.
Proof.
  intros H. destruct (Qle_bool b a) eqn:E; [|reflexivity].
  apply Qle_bool_iff in E. exfalso. apply (Qlt_not_le _ _ H E).
Qed.

Lemma Qle_bool_lt_true (a b : Q) : a < b -> Qle_bool a b = true.
Proof. intros H. apply Qle_bool_iff. apply Qlt_le_weak. exact H. Qed.

(** X27: for an uploaded or linked video with a positive start
    time, once the metadata of both elements has loaded, in either order,
    the main video and the glow both stand at [startTime], keep their
    paused state, no listener is left, and a [timeupdate] then finds no
    drift to correct.  For a YouTube source, or a start time of zero or
    less, the effect touches neither element and adds no listener. *)
Theorem startTime_seeks_both pr v g allowed :
  (isYouTube pr = true \/ startTime pr <= 0 ->
   startTimeEffect pr (v, g) = (v, g, {| onMain := false; onGlow := false |}))
  /\ (isYouTube pr = false -> 0 < startTime pr ->
      forall s,
        s = glowLoadedMetadata pr
              (mainLoadedMetadata pr (startTimeEffect pr (v, g)))
        \/ s = mainLoadedMetadata pr
                 (glowLoadedMetadata pr (startTimeEffect pr (v, g))) ->
        let '(v', g', listeners) := s in
        currentTime (media v') = startTime pr
        /\ currentTime (media g') = startTime pr
        /\ paused (media v') = paused (media v)
        /\ paused (media g') = paused (media g)
        /\ listeners = {| onMain := false; onGlow := false |}
        /\ currentTime (sync allowed (media v') (media g')) = startTime pr).
Proof.
  split.
  - unfold startTimeEffect. intros [-> | Hle]; [reflexivity|].
    destruct (isYouTube pr); [reflexivity|].
    apply Qle_bool_iff in Hle. rewrite Hle. reflexivity.
  - intros Hyt Hpos s Hs.
    pose proof (Qle_bool_lt_false _ _ Hpos) as Hgt.
    pose proof (Qle_bool_lt_true _ _ Hpos) as Hmax.
    destruct v as [[tv pv] rv], g as [[tg pg] rg].
    unfold startTimeEffect, mainLoadedMetadata, glowLoadedMetadata, seek,
      setCurrentTime, Math_max0 in Hs.
    rewrite Hyt, Hgt, Hmax in Hs.
    cbn [negb fst snd readyState media paused currentTime] in Hs.
    destruct (1 <=? rv)%Z, (rg <? 1)%Z;
      cbn [negb fst snd readyState media paused currentTime onMain onGlow]
        in Hs;
      destruct Hs as [-> | ->];
      cbn [media currentTime paused];
      (repeat split);
      unfold sync; cbn [currentTime paused];
      rewrite drifted_same; destruct pv, pg, allowed; reflexivity.
Qed.

Lemma startTime_seeks_both_witness :
  let pr :=
    {| sourceType := upload; youTubeId := ""; autoplay := true;
       startTime := 30; blur := 48; spread := 1; intensity := 1;
       saturate := 1.5; brightness := 1.5 |} in
  let v := {| media := {| currentTime := 0; paused := true |};
              readyState := 0 |} in
  let g := {| media := {| currentTime := 0; paused := true |};
              readyState := 4 |} in
  (isYouTube pr = false /\ 0 < startTime pr)
  /\ (forall s,
        s = glowLoadedMetadata pr
              (mainLoadedMetadata pr (startTimeEffect pr (v, g)))
        \/ s = mainLoadedMetadata pr
                 (glowLoadedMetadata pr (startTimeEffect pr (v, g))) ->
        let '(v', g', listeners) := s in
        currentTime (media v') = startTime pr
        /\ currentTime (media g') = startTime pr
        /\ paused (media v') = paused (media v)
        /\ paused (media g') = paused (media g)
        /\ listeners = {| onMain := false; onGlow := false |}
        /\ currentTime (sync true (media v') (media g')) = startTime pr).
Proof.
  assert (Hpos : 0 < 30) by reflexivity.
  cbv zeta. split; [split; [reflexivity | exact Hpos]|].
  exact (proj2 (startTime_seeks_both
                  {| sourceType := upload; youTubeId := ""; autoplay := true;
                     startTime := 30; blur := 48; spread := 1;
                     intensity := 1; saturate := 1.5; brightness := 1.5 |}
                  {| media := {| currentTime := 0; paused := true |};
                     readyState := 0 |}
                  {| media := {| currentTime := 0; paused := true |};
                     readyState := 4 |} true) eq_refl Hpos).
Defined.

End AmbiLightPlaybackFacts.
